(** * LLGL: extent/MIP math, UTF-8 string container, display modes and
      sample negotiation.

    A shallow embedding of the parts of the LLGL sources that the
    specification makes checkable statements about:

    - [TextureFlags]   sources/Renderer/TextureFlags.cpp
    - [UTF8]           include/LLGL/Container/UTF8String.h, sources/Core/UTF8String.cpp
    - [Displays]       sources/Platform/Linux/LinuxDisplay.cpp,
                       sources/Platform/Android/AndroidDisplay.cpp, include/LLGL/Display.h
    - [Samples]        sources/Renderer/OpenGL/GLSwapChain.cpp,
                       sources/Renderer/OpenGL/Platform/Android/AndroidGLContext.cpp,
                       examples/Cpp/ExampleBase/ExampleBase.cpp

    Unsigned 32-bit values ([std::uint32_t]) and [int]s are integers of [Z];
    where the source converts between widths the wrap-around is written out.
    Code whose behaviour C++ leaves undefined yields [None] (or [Undefined]);
    [LLGL_TRAP] yields [Trap]. *)

From Stdlib Require Import ZArith Zbitwise List Lia Bool.
From Stdlib Require String Ascii.
From stdpp Require Import base list sorting.

Local Open Scope Z_scope.

(** ** Fixed-width conversions *)

(** [static_cast<std::uint32_t>] of an integer value. *)
Definition to_uint32 (v : Z) : Z := v mod 2^32.

(** [static_cast<int>] of an integer value (two's complement, 32 bits). *)
Definition to_int (v : Z) : Z :=
  let r := v mod 2^32 in if r <? 2^31 then r else r - 2^32.

(** [std::size_t] arithmetic (64 bits). *)
Definition to_size_t (v : Z) : Z := v mod 2^64.

(** ** Results of code that can trap *)

Inductive result (A : Type) : Type :=
| Ok (a : A)          (* normal return *)
| Trap                (* LLGL_TRAP: fatal error *)
| Undefined.          (* the C++ code reads out of bounds *)
Arguments Ok {A} a.
Arguments Trap {A}.
Arguments Undefined {A}.

Definition result_map {A B} (f : A -> B) (r : result A) : result B :=
  match r with
  | Ok a => Ok (f a)
  | Trap => Trap
  | Undefined => Undefined
  end.

(* ===================================================================== *)
(** * TextureFlags.cpp *)
(* ===================================================================== *)

Module TextureFlags.

Inductive TextureType : Set :=
| Texture1D
| Texture2D
| Texture3D
| TextureCube
| Texture1DArray
| Texture2DArray
| TextureCubeArray
| Texture2DMS
| Texture2DMSArray.

Record Extent3D : Set := mkExtent3D { x : Z; y : Z; z : Z }.

(** The fields of [TextureDescriptor] that the MIP functions read. *)
Record TextureDescriptor : Set := mkTextureDescriptor {
  type        : TextureType;
  extent      : Extent3D;
  arrayLayers : Z;
  mipLevels   : Z
}.

(** Value-initialised [Extent3D{}]. *)
Definition zeroExtent : Extent3D := mkExtent3D 0 0 0.

(** [static_cast<std::uint32_t>(std::log2(maxSize))].  The argument is a
    32-bit unsigned integer, exactly representable as a [double]; for a
    positive argument the truncated binary logarithm is the index of the
    highest set bit, [Z.log2].  For [0] the logarithm is minus infinity and
    its conversion to [std::uint32_t] is undefined. *)
Definition log2_uint32 (maxSize : Z) : option Z :=
  if maxSize =? 0 then None else Some (Z.log2 maxSize).

(** [std::max({ width, height, depth })]. *)
Definition max3 (width height depth : Z) : Z :=
  Z.max (Z.max width height) depth.

(** [NumMipLevels(width, height, depth)]. *)
Definition NumMipLevels (width height depth : Z) : option Z :=
  let maxSize := max3 width height depth in
  match log2_uint32 maxSize with
  | Some log2Size => Some (1 + log2Size)
  | None => None
  end.

(** Modelled from the spec: the default arguments [height = 1] and
    [depth = 1] of the declaration of [NumMipLevels] in LLGL/TextureFlags.h,
    which is not among the sources.  The calls below pass one or two
    arguments, and "NumMipLevels(extent) = 1 + floor(log2(max(width, height,
    depth)))" for an extent whose unused dimensions are 1. *)
Definition default_height : Z := 1.
Definition default_depth : Z := 1.

(** [NumMipLevels(type, extent)]. *)
Definition NumMipLevels_type (ty : TextureType) (e : Extent3D) : option Z :=
  match ty with
  | Texture1D        => NumMipLevels (x e) default_height default_depth
  | Texture2D        => NumMipLevels (x e) (y e) default_depth
  | Texture3D        => NumMipLevels (x e) (y e) (z e)
  | TextureCube      => NumMipLevels (x e) (y e) default_depth
  | Texture1DArray   => NumMipLevels (x e) default_height default_depth
  | Texture2DArray   => NumMipLevels (x e) (y e) default_depth
  | TextureCubeArray => NumMipLevels (x e) (y e) default_depth
  | Texture2DMS      => Some 1
  | Texture2DMSArray => Some 1
  end.

(** [NumMipLevels(textureDesc)]. *)
Definition NumMipLevels_desc (d : TextureDescriptor) : option Z :=
  if mipLevels d =? 0 then NumMipLevels_type (type d) (extent d)
  else Some (mipLevels d).

(** [IsMultiSampleTexture]: [type >= TextureType::Texture2DMS]. *)
Definition IsMultiSampleTexture (ty : TextureType) : bool :=
  match ty with
  | Texture2DMS | Texture2DMSArray => true
  | _ => false
  end.

(** [MipExtent]: [std::max(1u, extent >> mipLevel)]. *)
Definition MipExtent (ext mipLevel : Z) : Z :=
  Z.max 1 (Z.shiftr ext mipLevel).

(** [GetMipExtent(type, extent, mipLevel)]. *)
Definition GetMipExtent (ty : TextureType) (e : Extent3D) (mipLevel : Z)
  : option Extent3D :=
  match NumMipLevels_type ty e with
  | None => None
  | Some n =>
    Some
      (if mipLevel <? n then
         match ty with
         | Texture1D        => mkExtent3D (MipExtent (x e) mipLevel) 1 1
         | Texture2D        => mkExtent3D (MipExtent (x e) mipLevel) (MipExtent (y e) mipLevel) 1
         | Texture3D        => mkExtent3D (MipExtent (x e) mipLevel) (MipExtent (y e) mipLevel) (MipExtent (z e) mipLevel)
         | TextureCube      => mkExtent3D (MipExtent (x e) mipLevel) (MipExtent (y e) mipLevel) (z e)
         | Texture1DArray   => mkExtent3D (MipExtent (x e) mipLevel) (y e) 1
         | Texture2DArray   => mkExtent3D (MipExtent (x e) mipLevel) (MipExtent (y e) mipLevel) (z e)
         | TextureCubeArray => mkExtent3D (MipExtent (x e) mipLevel) (MipExtent (y e) mipLevel) (z e)
         | Texture2DMS      => mkExtent3D (x e) (y e) 1
         | Texture2DMSArray => mkExtent3D (x e) (y e) (z e)
         end
       else zeroExtent)
  end.

(** Modelled from the spec: [GetAlignedSize] of Core/CoreUtils.h, which is
    not among the sources.  "array-layer counts for cube-array types are
    rounded up to multiples of 6": the least multiple of [alignment] that is
    not below [size], computed in [std::uint32_t], the type of both
    arguments of the call [GetAlignedSize(arrayLayers, 6u)], so that the sum
    and the product wrap around at [2^32]. *)
Definition GetAlignedSize (size alignment : Z) : Z :=
  to_uint32 ((to_uint32 (size + (alignment - 1)) / alignment) * alignment).

(** [GetMipExtent(textureDesc, mipLevel)]. *)
Definition GetMipExtent_desc (d : TextureDescriptor) (mipLevel : Z)
  : option Extent3D :=
  let e := extent d in
  match NumMipLevels_type (type d) e with
  | None => None
  | Some n =>
    Some
      (if mipLevel <? n then
         let layers := arrayLayers d in
         match type d with
         | Texture1D        => mkExtent3D (MipExtent (x e) mipLevel) 1 1
         | Texture2D        => mkExtent3D (MipExtent (x e) mipLevel) (MipExtent (y e) mipLevel) 1
         | Texture3D        => mkExtent3D (MipExtent (x e) mipLevel) (MipExtent (y e) mipLevel) (MipExtent (z e) mipLevel)
         | TextureCube      => mkExtent3D (MipExtent (x e) mipLevel) (MipExtent (y e) mipLevel) 6
         | Texture1DArray   => mkExtent3D (MipExtent (x e) mipLevel) layers 1
         | Texture2DArray   => mkExtent3D (MipExtent (x e) mipLevel) (MipExtent (y e) mipLevel) layers
         | TextureCubeArray => mkExtent3D (MipExtent (x e) mipLevel) (MipExtent (y e) mipLevel) (GetAlignedSize layers 6)
         | Texture2DMS      => mkExtent3D (x e) (y e) 1
         | Texture2DMSArray => mkExtent3D (x e) (y e) layers
         end
       else zeroExtent)
  end.

(** ** The other functions of TextureFlags.cpp *)

(** [NumMipTexels(type, extent, mipLevel)]: the product of the three
    components, each multiplication in 32 bits. *)
Definition NumMipTexels (ty : TextureType) (e : Extent3D) (mipLevel : Z) : option Z :=
  match GetMipExtent ty e mipLevel with
  | Some mipExtent =>
    Some (to_uint32 (to_uint32 (x mipExtent * y mipExtent) * z mipExtent))
  | None => None
  end.

(** [NumMipDimensions]. *)
Definition NumMipDimensions (ty : TextureType) : Z :=
  match ty with
  | Texture1D        => 1
  | Texture2D        => 2
  | Texture3D        => 3
  | TextureCube      => 2
  | Texture1DArray   => 2
  | Texture2DArray   => 3
  | TextureCubeArray => 3
  | Texture2DMS      => 2
  | Texture2DMSArray => 3
  end.

(** [NumTextureDimensions]. *)
Definition NumTextureDimensions (ty : TextureType) : Z :=
  match ty with
  | Texture1D        => 1
  | Texture2D        => 2
  | Texture3D        => 3
  | TextureCube      => 2
  | Texture1DArray   => 1
  | Texture2DArray   => 2
  | TextureCubeArray => 2
  | Texture2DMS      => 2
  | Texture2DMSArray => 2
  end.

(** The value of an enumerator of [TextureType].  The enumeration is
    declared in LLGL/TextureFlags.h, which is not among the sources; the
    values are taken in the order in which every [switch] of TextureFlags.cpp
    lists the enumerators, the order under which [type >= Texture2DMS] holds
    of the two multisample types only. *)
Definition TextureType_value (ty : TextureType) : Z :=
  match ty with
  | Texture1D        => 0
  | Texture2D        => 1
  | Texture3D        => 2
  | TextureCube      => 3
  | Texture1DArray   => 4
  | Texture2DArray   => 5
  | TextureCubeArray => 6
  | Texture2DMS      => 7
  | Texture2DMSArray => 8
  end.

(** [IsArrayTexture]:
    [type >= TextureType::Texture1DArray && type != TextureType::Texture2DMS]. *)
Definition IsArrayTexture (ty : TextureType) : bool :=
  (TextureType_value Texture1DArray <=? TextureType_value ty) &&
  negb (TextureType_value ty =? TextureType_value Texture2DMS).

(** [IsCubeTexture]. *)
Definition IsCubeTexture (ty : TextureType) : bool :=
  match ty with
  | TextureCube | TextureCubeArray => true
  | _ => false
  end.

(** [IsMipMappedTexture]. *)
Definition IsMipMappedTexture (d : TextureDescriptor) : bool :=
  negb (IsMultiSampleTexture (type d)) &&
  ((mipLevels d =? 0) || (1 <? mipLevels d)).

(** The plain one-, two- and three-dimensional types, whose every listed
    dimension shrinks from one MIP level to the next. *)
Definition is_plain_texture (ty : TextureType) : bool :=
  match ty with
  | Texture1D | Texture2D | Texture3D => true
  | _ => false
  end.

(** What the descriptor overload puts where the other overload passes the
    third (for [Texture1DArray] the second) component of the extent on. *)
Definition layers_in_extent (d : TextureDescriptor) : Prop :=
  match type d with
  | Texture1D | Texture2D | Texture3D | Texture2DMS => True
  | Texture1DArray => y (extent d) = arrayLayers d
  | Texture2DArray | Texture2DMSArray => z (extent d) = arrayLayers d
  | TextureCube => z (extent d) = 6
  | TextureCubeArray => z (extent d) = GetAlignedSize (arrayLayers d) 6
  end.

End TextureFlags.

(* ===================================================================== *)
(** * UTF8String.h, UTF8String.cpp *)
(* ===================================================================== *)

Module UTF8.

(** A [char] is kept as its 8-bit pattern, an integer in [0, 256); a
    [wchar_t] or [int] code is an integer.  A [SmallVector<T>] is a list. *)

(** [static_cast<char>(code)] keeps the low eight bits. *)
Definition static_cast_char (code : Z) : Z := code mod 256.

(** [SmallVector::push_back]. *)
Definition push_back {A} (v : list A) (a : A) : list A := v ++ [a].

(** [SmallVector::pop_back]; the callers only reach it on a non-empty
    vector. *)
Definition pop_back {A} (v : list A) : list A := removelast v.

(** [SmallVector::resize(n, value)]: truncate, or pad with [value]. *)
Definition vec_resize {A} (v : list A) (n : nat) (value : A) : list A :=
  take n v ++ replicate (n - length v) value.

(** ** Encoding (UTF8String.h) *)

(** [GetUTF8CharCount(int c)]. *)
Definition GetUTF8CharCount (c : Z) : Z :=
  if c <? 0x0080 then 1
  else if c <? 0x07FF then 2
  else if c <? 0xFFFF then 3
  else 4.

(** [AppendUTF8Character(str, code)]. *)
Definition AppendUTF8Character (str : list Z) (code : Z) : list Z :=
  if code <? 0x0080 then
    push_back str (static_cast_char code)
  else if code <? 0x07FF then
    let str := push_back str (static_cast_char (Z.lor 0xC0 (Z.land (Z.shiftr code 6) 0x1F))) in
    push_back str (static_cast_char (Z.lor 0x80 (Z.land code 0x3F)))
  else if code <? 0xFFFF then
    let str := push_back str (static_cast_char (Z.lor 0xE0 (Z.land (Z.shiftr code 12) 0x0F))) in
    let str := push_back str (static_cast_char (Z.lor 0x80 (Z.land (Z.shiftr code 6) 0x3F))) in
    push_back str (static_cast_char (Z.lor 0x80 (Z.land code 0x3F)))
  else
    let str := push_back str (static_cast_char (Z.lor 0xF0 (Z.land (Z.shiftr code 18) 0x07))) in
    let str := push_back str (static_cast_char (Z.lor 0x80 (Z.land (Z.shiftr code 12) 0x3F))) in
    let str := push_back str (static_cast_char (Z.lor 0x80 (Z.land (Z.shiftr code 6) 0x3F))) in
    push_back str (static_cast_char (Z.lor 0x80 (Z.land code 0x3F))).

(** [ConvertWStringViewToUTF8CharArray(s)]: the loop [for (int c : s)]
    followed by the terminator. *)
Definition ConvertWStringViewToUTF8CharArray (s : list Z) : list Z :=
  push_back (fold_left AppendUTF8Character s []) 0.

(** [ConvertStringViewToCharArray(str)]. *)
Definition ConvertStringViewToCharArray (str : list Z) : list Z :=
  push_back ([] ++ str) 0.

(** ** Decoding (UTF8String.cpp) *)

Section Decoding.

(** Whether plain [char] is signed is implementation-defined (signed on
    x86, unsigned on ARM Linux and Android); [c = *it++] reads a [char] into
    an [int] and so depends on it. *)
Variable char_is_signed : bool.

(** The [int] value of a [char] with the given bit pattern. *)
Definition char_to_int (b : Z) : Z :=
  if char_is_signed && (128 <=? b) then b - 256 else b.

(** The loop of [ConvertToUTF16WCharArray]: [it] is the unread part of the
    view, [utf16] the vector built so far.  Reading past the end of the view
    is [Undefined]. *)
Fixpoint ConvertToUTF16_loop (it : list Z) (utf16 : list Z) : result (list Z) :=
  match it with
  | [] => Ok utf16
  | b0 :: it1 =>
    let c := b0 (* static_cast<unsigned char>( *it++ ) *) in
    if Z.land c 0x80 =? 0x00 then
      ConvertToUTF16_loop it1 (push_back utf16 c)
    else if Z.land c 0xE0 =? 0xC0 then
      let w0 := Z.land c 0x1F in
      match it1 with
      | b1 :: it2 =>
        let c := char_to_int b1 in
        let w1 := Z.land c 0x3F in
        ConvertToUTF16_loop it2 (push_back utf16 (Z.lor (Z.shiftl w0 5) w1))
      | [] => Undefined
      end
    else if Z.land c 0xF0 =? 0xE0 then
      let w0 := Z.land c 0x0F in
      match it1 with
      | b1 :: b2 :: it3 =>
        let c := char_to_int b1 in
        let w1 := Z.land c 0x3F in
        let c := char_to_int b2 in
        let w2 := Z.land c 0x3F in
        ConvertToUTF16_loop it3
          (push_back utf16 (Z.lor (Z.lor (Z.shiftl w0 12) (Z.shiftl w1 6)) w2))
      | _ => Undefined
      end
    else Trap
  end.

(** [ConvertToUTF16WCharArray(s)]. *)
Definition ConvertToUTF16WCharArray (s : list Z) : result (list Z) :=
  result_map (fun utf16 => push_back utf16 0) (ConvertToUTF16_loop s []).

End Decoding.

(** ** The container *)

Record UTF8String : Type := mkUTF8String { data_ : list Z }.

(** [size()]: [data_.size() - 1] in [std::size_t] arithmetic.  The size of
    a vector is below [2^64], so the subtraction wraps for the empty vector
    only. *)
Definition size (s : UTF8String) : Z :=
  match data_ s with
  | [] => 2^64 - 1
  | _ :: _ => Z.of_nat (length (data_ s)) - 1
  end.

(** [c_str()[pos]], [operator[]]. *)
Definition at_ (s : UTF8String) (pos : Z) : option Z :=
  data_ s !! Z.to_nat pos.

(** The buffer invariant: the buffer holds [size() + 1] characters and
    [c_str()[size()]] is the terminator. *)
Definition NUL_terminated (s : UTF8String) : Prop :=
  Z.of_nat (length (data_ s)) = size s + 1 /\ at_ s (size s) = Some 0.

(** [operator StringView()]: [StringView{ data(), size() }]. *)
Definition view (s : UTF8String) : list Z :=
  take (Z.to_nat (size s)) (data_ s).

(** Constructors. *)
Definition UTF8String_default : UTF8String := mkUTF8String [0].

Definition UTF8String_of_StringView (str : list Z) : UTF8String :=
  mkUTF8String (ConvertStringViewToCharArray str).

Definition UTF8String_of_WStringView (str : list Z) : UTF8String :=
  mkUTF8String (ConvertWStringViewToUTF8CharArray str).

(** [clear()]. *)
Definition clear (s : UTF8String) : UTF8String := mkUTF8String [0].

(** [resize(size, ch)]; [reserve] does not change the contents. *)
Definition resize (s : UTF8String) (new_size ch : Z) : UTF8String :=
  if negb (new_size =? size s) then
    let d := pop_back (data_ s) in
    let d := vec_resize d (Z.to_nat new_size) ch in
    mkUTF8String (push_back d 0)
  else s.

(** [append(count, ch)]; the sum is a [size_type]. *)
Definition append_fill (s : UTF8String) (count ch : Z) : UTF8String :=
  resize s (to_size_t (size s + count)) ch.

(** [append(first, last)], the range given by its characters. *)
Definition append (s : UTF8String) (range : list Z) : UTF8String :=
  let dist := Z.of_nat (length range) in
  if 0 <? dist then
    let d := pop_back (data_ s) in
    let d := d ++ range in
    mkUTF8String (push_back d 0)
  else s.

(** [operator += (const WStringView&)]: the appended range is the whole
    converted array, from its [begin()] to its [end()], terminator
    included. *)
Definition append_wide (s : UTF8String) (rhs : list Z) : UTF8String :=
  append s (ConvertWStringViewToUTF8CharArray rhs).

(** [operator += (wchar_t chr)]. *)
Definition append_wchar (s : UTF8String) (chr : Z) : UTF8String :=
  if 1 <? GetUTF8CharCount chr then append_wide s [chr]
  else append_fill s 1 (static_cast_char chr).

(** [substr(pos, count)]. *)
Definition substr (s : UTF8String) (pos count : Z) : result UTF8String :=
  if size s <? pos then Trap
  else
    let count := Z.min count (size s - pos) in
    Ok (UTF8String_of_StringView
          (take (Z.to_nat count) (drop (Z.to_nat pos) (data_ s)))).

(** [to_utf16()]. *)
Definition to_utf16 (char_is_signed : bool) (s : UTF8String) : result (list Z) :=
  ConvertToUTF16WCharArray char_is_signed (view s).

(** ** Programs over several strings

    Objects live in a store and are named by their index, so that an
    assignment can name the same object on both sides. *)

Inductive operation : Type :=
| New                                   (* UTF8String s; *)
| NewFromStringView (str : list Z)      (* UTF8String s{ str }; *)
| NewFromWStringView (str : list Z)     (* UTF8String s{ wstr }; *)
| NewCopy (rhs : nat)                   (* UTF8String s{ rhs }; *)
| NewMove (rhs : nat)                   (* UTF8String s{ std::move(rhs) }; *)
| Clear (i : nat)                       (* s.clear() *)
| Resize (i : nat) (new_size ch : Z)    (* s.resize(size, ch) *)
| AppendFill (i : nat) (count ch : Z)   (* s.append(count, ch), s += ch *)
| Append (i : nat) (range : list Z)     (* s.append(first, last), s += view *)
| AppendString (i rhs : nat)            (* s += rhs *)
| AppendWide (i : nat) (rhs : list Z)   (* s += wstr *)
| AppendWChar (i : nat) (chr : Z)       (* s += wchr *)
| AssignCopy (i rhs : nat)              (* s = rhs *)
| AssignMove (i rhs : nat).             (* s = std::move(rhs) *)

Definition store := list UTF8String.

(** One operation; an operation that names an object which does not exist
    is not a program and leaves the store as it is. *)
Definition step (st : store) (o : operation) : store :=
  match o with
  | New => st ++ [UTF8String_default]
  | NewFromStringView str => st ++ [UTF8String_of_StringView str]
  | NewFromWStringView str => st ++ [UTF8String_of_WStringView str]
  | NewCopy rhs =>
    match st !! rhs with
    | Some r => st ++ [mkUTF8String (data_ r)]
    | None => st
    end
  | NewMove rhs =>
    match st !! rhs with
    | Some r => (<[rhs := clear r]> st) ++ [mkUTF8String (data_ r)]
    | None => st
    end
  | Clear i => alter clear i st
  | Resize i new_size ch => alter (fun s => resize s new_size ch) i st
  | AppendFill i count ch => alter (fun s => append_fill s count ch) i st
  | Append i range => alter (fun s => append s range) i st
  | AppendString i rhs =>
    match st !! rhs with
    | Some r => alter (fun s => append s (view r)) i st
    | None => st
    end
  | AppendWide i rhs => alter (fun s => append_wide s rhs) i st
  | AppendWChar i chr => alter (fun s => append_wchar s chr) i st
  | AssignCopy i rhs =>
    match st !! rhs with
    | Some r => alter (fun _ => mkUTF8String (data_ r)) i st
    | None => st
    end
  | AssignMove i rhs =>
    match st !! rhs with
    | Some r =>
      if decide (i < length st)%nat then
        alter clear rhs (alter (fun _ => mkUTF8String (data_ r)) i st)
      else st
    | None => st
    end
  end.

(** A program run from the empty store. *)
Definition run (program : list operation) : store :=
  fold_left step program [].

(** ** Predicates of the specification *)

(** The form of the invariant that the operations preserve. *)
Definition terminated (s : UTF8String) : Prop :=
  exists payload, data_ s = payload ++ [0].

(** The code points that the container stores and reads back. *)
Definition survives (code : Z) : Prop :=
  0 <= code < 0x80 \/ 0x07FF <= code < 0xFFFF.

(** ** Checks on the bytes of one character, as the decoder tests them *)

Definition lead3_ok (w : Z) : bool :=
  let b := static_cast_char (Z.lor 0xE0 w) in
  negb (Z.land b 0x80 =? 0x00) && negb (Z.land b 0xE0 =? 0xC0) &&
  (Z.land b 0xF0 =? 0xE0) && (Z.land b 0x0F =? w).

Definition lead2_ok (w : Z) : bool :=
  let b := static_cast_char (Z.lor 0xC0 w) in
  negb (Z.land b 0x80 =? 0x00) && (Z.land b 0xE0 =? 0xC0) && (Z.land b 0x1F =? w).

Definition continuation_ok (sgn : bool) (w : Z) : bool :=
  Z.land (char_to_int sgn (static_cast_char (Z.lor 0x80 w))) 0x3F =? w.

Definition ascii_ok (c : Z) : bool :=
  (static_cast_char c =? c) && (Z.land c 0x80 =? 0x00).

Definition lead4_ok (w : Z) : bool :=
  let b := static_cast_char (Z.lor 0xF0 w) in
  negb (Z.land b 0x80 =? 0x00) && negb (Z.land b 0xE0 =? 0xC0) &&
  negb (Z.land b 0xF0 =? 0xE0).

(** ** More of the container *)

(** [GetUTF8CharCount(const WStringView& s)]: the sum over the characters,
    accumulated in a [std::size_t]. *)
Definition GetUTF8CharCount_view (s : list Z) : Z :=
  fold_left (fun len c => to_size_t (len + GetUTF8CharCount c)) s 0.

(** [npos]: [size_type(-1)]. *)
Definition npos : Z := to_size_t (-1).

(** [empty()]. *)
Definition empty (s : UTF8String) : bool := size s =? 0.

End UTF8.

(* ===================================================================== *)
(** * Display.h, LinuxDisplay.cpp, AndroidDisplay.cpp *)
(* ===================================================================== *)

Module Displays.

Record Extent2D : Set := mkExtent2D { width : Z; height : Z }.

Record DisplayMode : Set := mkDisplayMode {
  resolution  : Extent2D;
  refreshRate : Z
}.

#[global] Instance Extent2D_eq_dec : EqDecision Extent2D.
Proof. solve_decision. Defined.

#[global] Instance DisplayMode_eq_dec : EqDecision DisplayMode.
Proof. solve_decision. Defined.

(** ** The X server, as LinuxDisplay.cpp sees it through Xrandr *)

(** [XRRScreenSize]: [int width, height] (the millimetre fields are not
    read). *)
Record XRRScreenSize : Set := mkXRRScreenSize { xrr_width : Z; xrr_height : Z }.

(** One X screen: the sizes [XRRSizes] lists, each with the [short] rates
    [XRRRates] lists for its index; the index of the size in use; whether
    [XRRGetScreenInfo] hands out a configuration; the [Status] with which the
    server answers [XRRSetScreenConfig]; and the size indices of the
    [XRRSetScreenConfig] requests that the server has received so far. *)
Record XScreen : Set := mkXScreen {
  scr_sizes        : list (XRRScreenSize * list Z);
  scr_current_size : nat;
  scr_info         : bool;
  scr_set_status   : Z;
  scr_requests     : list nat
}.

Definition RRSetConfigSuccess : Z := 0.

(** [XRRSizes(dpy, screen, &numSizes)]. *)
Definition XRRSizes (scr : XScreen) : list XRRScreenSize :=
  map fst (scr_sizes scr).

(** [XRRSetScreenConfig(dpy, cfg, root, size_index, rotation, timestamp)]:
    the server records the request, and switches to the size of the given
    index when it answers [RRSetConfigSuccess]. *)
Definition XRRSetScreenConfig (scr : XScreen) (size_index : nat) : Z * XScreen :=
  let status := scr_set_status scr in
  let current :=
    if status =? RRSetConfigSuccess then size_index else scr_current_size scr in
  (status,
   mkXScreen (scr_sizes scr) current (scr_info scr) (scr_set_status scr)
             (scr_requests scr ++ [size_index])).

(** ** The Android application, as AndroidDisplay.cpp sees it *)

(** The native window of the application, if there is one, with the [int32]
    results of [ANativeWindow_getWidth] and [ANativeWindow_getHeight]. *)
Definition AndroidApp : Set := option (Z * Z).

(** ** Displays *)

Inductive Display : Set :=
| LinuxDisplay (scr : XScreen)
| AndroidDisplay (app : AndroidApp).

(** The order of the display mode list: "the first sorting criterion is the
    number of pixels (resolution width times resolution height) in ascending
    order, and the second sorting criterion is the refresh rate in ascending
    order" (Display.h). *)
Definition NumPixels (m : DisplayMode) : Z :=
  width (resolution m) * height (resolution m).

Definition mode_le (a b : DisplayMode) : Prop :=
  NumPixels a < NumPixels b \/
  (NumPixels a = NumPixels b /\ refreshRate a <= refreshRate b).

#[global] Instance mode_le_dec : RelDecision mode_le.
Proof. intros a b. unfold mode_le. apply _. Defined.

(** Modelled from the spec: [Display::FinalizeDisplayModes], declared in
    Display.h and defined in a file that is not among the sources.  It
    "sorts the specified list of display modes as described in the
    GetSupportedDisplayModes function, and removes duplicate entries". *)
Definition FinalizeDisplayModes (displayModes : list DisplayMode) : list DisplayMode :=
  remove_dups (merge_sort mode_le displayModes).

(** [LinuxDisplay::GetSupportedDisplayModes]: one mode for each rate of
    each size, in the order of the two loops, then finalized. *)
Definition LinuxDisplay_GetSupportedDisplayModes (scr : XScreen) : list DisplayMode :=
  let displayModes :=
    flat_map
      (fun '(size, rates) =>
         let res := mkExtent2D (to_uint32 (xrr_width size)) (to_uint32 (xrr_height size)) in
         map (fun rate => mkDisplayMode res (to_uint32 rate)) rates)
      (scr_sizes scr) in
  FinalizeDisplayModes displayModes.

(** [GetAndroidWindowExtent]. *)
Definition GetAndroidWindowExtent (app : AndroidApp) : Extent2D :=
  match app with
  | Some (w, h) =>
    if (0 <? w) && (0 <? h) then mkExtent2D (to_uint32 w) (to_uint32 h)
    else mkExtent2D 0 0
  | None => mkExtent2D 0 0
  end.

(** [AndroidDisplay::GetDisplayMode]. *)
Definition AndroidDisplay_GetDisplayMode (app : AndroidApp) : DisplayMode :=
  mkDisplayMode (GetAndroidWindowExtent app) 60.

(** [AndroidDisplay::GetSupportedDisplayModes]. *)
Definition AndroidDisplay_GetSupportedDisplayModes (app : AndroidApp) : list DisplayMode :=
  [] ++ [AndroidDisplay_GetDisplayMode app].

(** The virtual [Display::GetSupportedDisplayModes]. *)
Definition GetSupportedDisplayModes (d : Display) : list DisplayMode :=
  match d with
  | LinuxDisplay scr => LinuxDisplay_GetSupportedDisplayModes scr
  | AndroidDisplay app => AndroidDisplay_GetSupportedDisplayModes app
  end.

(** The test of [LinuxDisplay::SetDisplayMode] on one screen size. *)
Definition resolution_matches (displayMode : DisplayMode) (size : XRRScreenSize) : bool :=
  (width (resolution displayMode) =? to_uint32 (xrr_width size)) &&
  (height (resolution displayMode) =? to_uint32 (xrr_height size)).

(** The loop of [LinuxDisplay::SetDisplayMode] from index [i] on, [scrSizes]
    being the sizes from that index. *)
Fixpoint SetDisplayMode_loop (scr : XScreen) (displayMode : DisplayMode)
    (i : nat) (scrSizes : list XRRScreenSize) : bool * XScreen :=
  match scrSizes with
  | [] => (false, scr)
  | size :: rest =>
    if resolution_matches displayMode size then
      if scr_info scr then
        let '(status, scr') := XRRSetScreenConfig scr i in
        (negb (status =? 0), scr')
      else SetDisplayMode_loop scr displayMode (S i) rest
    else SetDisplayMode_loop scr displayMode (S i) rest
  end.

(** [LinuxDisplay::SetDisplayMode]. *)
Definition LinuxDisplay_SetDisplayMode (scr : XScreen) (displayMode : DisplayMode)
  : bool * XScreen :=
  SetDisplayMode_loop scr displayMode 0 (XRRSizes scr).

(** [AndroidDisplay::SetDisplayMode]. *)
Definition AndroidDisplay_SetDisplayMode (app : AndroidApp) (displayMode : DisplayMode)
  : bool * AndroidApp :=
  (false, app).

(** The virtual [Display::SetDisplayMode]: the result and the display
    afterwards. *)
Definition SetDisplayMode (d : Display) (displayMode : DisplayMode) : bool * Display :=
  match d with
  | LinuxDisplay scr =>
    let '(r, scr') := LinuxDisplay_SetDisplayMode scr displayMode in
    (r, LinuxDisplay scr')
  | AndroidDisplay app =>
    let '(r, app') := AndroidDisplay_SetDisplayMode app displayMode in
    (r, AndroidDisplay app')
  end.

End Displays.

(* ===================================================================== *)
(** * GLSwapChain.cpp, AndroidGLContext.cpp, ExampleBase.cpp *)
(* ===================================================================== *)

Module Samples.

(** [GLPixelFormat]. *)
Record GLPixelFormat : Set := mkGLPixelFormat {
  colorBits   : Z;
  depthBits   : Z;
  stencilBits : Z;
  samples     : Z
}.


(** The EGL display: whether [eglChooseConfig] succeeds with at least one
    configuration for the given depth and stencil sizes and, when the
    attribute list asks for multisampling, the given [EGL_SAMPLES] ([None]
    when the [EGL_SAMPLE*] entries are cut off). *)
Definition EGLDisplay : Type := Z -> Z -> option Z -> bool.

(** The query of one iteration of [SelectConfig]. *)
Definition eglChooseConfig (display_ : EGLDisplay) (pixelFormat : GLPixelFormat)
    (samples_ : Z) : bool :=
  display_ (depthBits pixelFormat) (stencilBits pixelFormat)
           (if samples_ <=? 1 then None else Some samples_).

(** The loop of [AndroidGLContext::SelectConfig], [n] being the value of
    [samples_] at the loop test; it yields the result and the final
    [samples_]. *)
Fixpoint SelectConfig_loop (display_ : EGLDisplay) (pixelFormat : GLPixelFormat)
    (n : nat) : bool * Z :=
  match n with
  | O => (false, 0)
  | S n' =>
    if eglChooseConfig display_ pixelFormat (Z.of_nat n) then (true, Z.of_nat n)
    else SelectConfig_loop display_ pixelFormat n'
  end.

(** [AndroidGLContext::SelectConfig]: [samples_] starts at
    [std::max(1, pixelFormat.samples)]. *)
Definition SelectConfig (display_ : EGLDisplay) (pixelFormat : GLPixelFormat) : bool * Z :=
  SelectConfig_loop display_ pixelFormat (Z.to_nat (Z.max 1 (samples pixelFormat))).

Inductive RendererID : Set := OpenGL | OtherRenderer.

(** [ExampleBase::ExampleBase]: "Apply device limits (not for GL, because we
    won't have a valid GL context until we create our first swap chain)". *)
Definition ExampleBase_samples (id : RendererID) (config_samples maxColorBufferSamples : Z) : Z :=
  match id with
  | OpenGL => config_samples
  | OtherRenderer => Z.min config_samples maxColorBufferSamples
  end.

(** A display function that finds a configuration for a request without
    multisampling and for a request of exactly 2, 4 or 8 samples, whatever
    the depth and stencil sizes; it is stricter than the matching of
    [EGL_SAMPLES] by "at least" (see [EGL_SAMPLES_at_least] below). *)
Definition egl_1_2_4_8 : EGLDisplay :=
  fun _ _ samples =>
    match samples with
    | None => true
    | Some n => (n =? 2) || (n =? 4) || (n =? 8)
    end.

(** An EGL display that has a configuration for every sample count up to
    the given maximum. *)
Definition egl_up_to (maxSamples : Z) : EGLDisplay :=
  fun _ _ samples =>
    match samples with
    | None => 1 <=? maxSamples
    | Some n => n <=? maxSamples
    end.



End Samples.


(* ===================================================================== *)
(** * AndroidGLContext.cpp: the version of the context *)
(* ===================================================================== *)

Module AndroidGL.
Import Samples.

(** [GetGLESVersionNo(major, minor)] in [EGLint], a 32-bit [int]; beyond its
    limits the result is the one of two's complement arithmetic. *)
Definition GetGLESVersionNo (major minor : Z) : Z := to_int (major * 100 + minor * 10).

(** [GetGLESMajorVersion(version)]; [/] and [%] on [EGLint] truncate. *)
Definition GetGLESMajorVersion (version : Z) : Z := Z.quot version 100.

(** [GetGLESMinorVersion(version)]. *)
Definition GetGLESMinorVersion (version : Z) : Z := Z.rem (Z.quot version 10) 10.

(** [IsSupportedGLESVersion(version)]. *)
Definition IsSupportedGLESVersion (version : Z) : bool :=
  (version =? 320) || (version =? 310) || (version =? 300) || (version =? 200).

(** What [CreateContext] sees of EGL: whether [eglInitialize] succeeds, which
    configurations [eglChooseConfig] finds, and for which version
    [eglCreateContext] hands out a context (the configuration and the shared
    context do not change between the attempts). *)
Record EGL : Type := mkEGL {
  egl_initialize     : bool;
  egl_configs        : EGLDisplay;
  egl_create_context : Z -> Z -> bool
}.

(** The fields of [RendererConfigurationOpenGL] that are read. *)
Record RendererConfigurationOpenGL : Set := mkProfile {
  majorVersion : Z;
  minorVersion : Z
}.

(** The [while] loop of [CreateContext], in a release build: the version of
    the context that was created, or nothing when the loop was left by
    [break].  The loop has no bound of its own; [fuel] counts its
    iterations, and [None] says that they were used up. *)
Fixpoint CreateContext_loop (fuel : nat) (create : Z -> Z -> bool) (major minor : Z)
  : option (option (Z * Z)) :=
  match fuel with
  | O => None
  | S fuel' =>
    if create major minor then Some (Some (major, minor))
    else if major =? 3 then
      if (0 <? minor) && (minor <=? 2)
      then CreateContext_loop fuel' create major (minor - 1)
      else CreateContext_loop fuel' create (major - 1) minor
    else Some None
  end.

(** [AndroidGLContext::CreateContext]: the sample count and the version of
    the context, or the trap. *)
Definition CreateContext (fuel : nat) (egl : EGL) (pixelFormat : GLPixelFormat)
    (profile : RendererConfigurationOpenGL) : option (result (Z * (Z * Z))) :=
  if negb (egl_initialize egl) then Some Trap
  else
    match SelectConfig (egl_configs egl) pixelFormat with
    | (false, _) => Some Trap
    | (true, samples_) =>
      let start :=
        if negb ((majorVersion profile =? 0) && (minorVersion profile =? 0)) then
          if negb (IsSupportedGLESVersion
                     (GetGLESVersionNo (majorVersion profile) (minorVersion profile)))
          then None
          else Some (majorVersion profile, minorVersion profile)
        else Some (3, 0) in
      match start with
      | None => Some Trap
      | Some (major, minor) =>
        match CreateContext_loop fuel (egl_create_context egl) major minor with
        | None => None
        | Some None => Some Trap
        | Some (Some version) => Some (Ok (samples_, version))
        end
      end
    end.

(** The constructor of [AndroidGLContext], which runs [CreateContext], and
    [GetSamples] of the context then, which returns [samples_]. *)
Definition AndroidGLContext_samples (fuel : nat) (egl : EGL) (pixelFormat : GLPixelFormat)
    (profile : RendererConfigurationOpenGL) : option (result Z) :=
  match CreateContext fuel egl pixelFormat profile with
  | Some r => Some (result_map fst r)
  | None => None
  end.

(** ** GLSwapChain.cpp *)

Section SwapChain.

(** [GetClampedSamples] is declared in Renderer/TextureUtils.h, which is
    not among the sources; it is a parameter here. *)
Variable GetClampedSamples : Z -> Z.



End SwapChain.

(** The versions that LLGL supports, from the newest to the oldest. *)
Definition GLES_versions : list (Z * Z) := [(3, 2); (3, 1); (3, 0); (2, 0)].

(** The versions from the given one down. *)
Fixpoint versions_from (version : Z * Z) (versions : list (Z * Z)) : list (Z * Z) :=
  match versions with
  | [] => []
  | v :: rest =>
    if (fst v =? fst version) && (snd v =? snd version) then versions
    else versions_from version rest
  end.

(** The first of the given versions for which [eglCreateContext] hands out a
    context. *)
Definition first_created (create : Z -> Z -> bool) (versions : list (Z * Z))
  : option (Z * Z) :=
  find (fun v => create (fst v) (snd v)) versions.

(** The version that [CreateContext] starts with. *)
Definition start_version (profile : RendererConfigurationOpenGL) : Z * Z :=
  if (majorVersion profile =? 0) && (minorVersion profile =? 0) then (3, 0)
  else (majorVersion profile, minorVersion profile).

End AndroidGL.

(* ===================================================================== *)
(** * The examples: ExampleBase.cpp, Texturing/Example.cpp *)
(* ===================================================================== *)

Module Examples.
Import Samples.

(** ** ExampleBase.cpp: the sample count of the command line *)

Import String.StringSyntax.

(** [msArg = "-ms="]. *)
Local Open Scope string_scope.
Definition msArg : String.string := "-ms=".
Local Close Scope string_scope.

Section CommandLine.

(** [::atoi] of the C library. *)
Variable atoi : String.string -> Z.

(** [StringView::compare(pos, len, str)], which is declared in a header that
    is not among the sources: its [int] result for the string view it is
    called on. *)
Variable compare : String.string -> nat -> nat -> String.string -> Z.

(** The characters of [argv[i]] from [msArg.size()] on. *)
Definition after_msArg (arg : String.string) : String.string :=
  String.substring (String.length msArg) (String.length arg - String.length msArg) arg.

(** [static_cast<std::uint32_t>(std::max(1, std::min(value, 16)))]. *)
Definition clamp_samples (value : Z) : Z :=
  to_uint32 (Z.max 1 (Z.min value 16)).

(** The loop of [ParseSamples] over the arguments from [argv[1]] on, with
    the result and the value of [samples] afterwards. *)
Fixpoint ParseSamples_loop (samples : Z) (args : list String.string) : bool * Z :=
  match args with
  | [] => (false, samples)
  | arg :: rest =>
    if compare arg 0 (String.length msArg) msArg =? 0 then
      if (String.length arg <? String.length msArg + 1)%nat then (false, samples)
      else (true, clamp_samples (atoi (after_msArg arg)))
    else ParseSamples_loop samples rest
  end.

(** [ParseSamples(samples, argc, argv)]. *)
Definition ParseSamples (samples : Z) (argv : list String.string) : bool * Z :=
  ParseSamples_loop samples (tail argv).

(** [g_Config.samples] after [ParseProgramArgs], from its initial value 8;
    the result of [ParseSamples] is not looked at. *)
Definition config_samples (argv : list String.string) : Z :=
  snd (ParseSamples 8 argv).

End CommandLine.

(** ** Texturing/Example.cpp: the resource shown *)

(** [resourceIndex = (resourceIndex + 1) % 4] on [unsigned]. *)
Definition next_resource (resourceIndex : Z) : Z :=
  to_uint32 (resourceIndex + 1) mod 4.

(** [resourceIndex = ((resourceIndex - 1) % 4 + 4) % 4] on [unsigned]. *)
Definition previous_resource (resourceIndex : Z) : Z :=
  to_uint32 (to_uint32 (resourceIndex - 1) mod 4 + 4) mod 4.

(** The index into [colorMaps]: [resourceIndex == 0 ? 0 : 1]. *)
Definition colorMap_index (resourceIndex : Z) : Z :=
  if resourceIndex =? 0 then 0 else 1.

(** The index into [samplers]: [resourceIndex == 0 ? 0 : resourceIndex - 1]. *)
Definition sampler_index (resourceIndex : Z) : Z :=
  if resourceIndex =? 0 then 0 else to_uint32 (resourceIndex - 1).

(** A C library and a string view for the examples below: [atoi] reads
    decimal digits up to the first other character, and [compare] is 0 when
    the [len] characters from [pos] are the given string. *)
Fixpoint digits_value (acc : Z) (s : String.string) : Z :=
  match s with
  | String.String c rest =>
    let d := Z.of_N (Ascii.N_of_ascii c) - 48 in
    if (0 <=? d) && (d <=? 9) then digits_value (acc * 10 + d) rest else acc
  | String.EmptyString => acc
  end.

Definition atoi_digits (s : String.string) : Z := digits_value 0 s.

Definition compare_equal (s : String.string) (pos len : nat) (str : String.string) : Z :=
  if String.eqb (String.substring pos len s) str then 0 else 1.

End Examples.

(* ===================================================================== *)
(** * Properties *)
(* ===================================================================== *)

Module TextureFlagsFacts.
Import TextureFlags.

(** ** Concrete textures *)

Example NumMipLevels_64 : NumMipLevels 64 64 1 = Some 7.
Proof. reflexivity. Qed.

Example GetMipExtent_64_level6 :
  GetMipExtent Texture2D (mkExtent3D 64 64 1) 6 = Some (mkExtent3D 1 1 1).
Proof. reflexivity. Qed.

Example GetMipExtent_64_level7 :
  GetMipExtent Texture2D (mkExtent3D 64 64 1) 7 = Some zeroExtent.
Proof. reflexivity. Qed.

Example GetAlignedSize_7 : GetAlignedSize 7 6 = 12.
Proof. reflexivity. Qed.

(** ** MIP level counts and extents *)

Lemma max3_lower (w h d : Z) : 1 <= w -> 1 <= max3 w h d.
Proof. unfold max3. lia. Qed.

Lemma NumMipLevels_log2 (w h d : Z) :
  max3 w h d <> 0 -> NumMipLevels w h d = Some (1 + Z.log2 (max3 w h d)).
Proof.
  intros Hm. unfold NumMipLevels, log2_uint32.
  destruct (Z.eqb_spec (max3 w h d) 0); [contradiction | reflexivity].
Qed.

(** C3.  For every extent with all components at least 1 there is a [k]
    with [2^k <= max(w,h,d) < 2^(k+1)], the maximum being the largest of the
    three components (so [k] is the floor of its binary logarithm), and
    [NumMipLevels w h d = 1 + k]; when the maximum is a power of two [2^j]
    the result is [j + 1], and when the maximum is 1 the result is 1. *)
Theorem NumMipLevels_floor_log2 (w h d : Z) :
  1 <= w -> 1 <= h -> 1 <= d ->
  (exists k, 0 <= k /\ 2^k <= Z.max w (Z.max h d) < 2^(k+1) /\
             NumMipLevels w h d = Some (1 + k)) /\
  (forall j, 0 <= j -> Z.max w (Z.max h d) = 2^j -> NumMipLevels w h d = Some (j + 1)) /\
  (Z.max w (Z.max h d) = 1 -> NumMipLevels w h d = Some 1).
Proof.
  intros Hw Hh Hd.
  assert (Hmax : max3 w h d = Z.max w (Z.max h d)) by (unfold max3; lia).
  assert (Hne : max3 w h d <> 0) by lia.
  rewrite (NumMipLevels_log2 _ _ _ Hne), Hmax.
  split; [| split].
  - exists (Z.log2 (Z.max w (Z.max h d))). split; [apply Z.log2_nonneg |].
    split; [| reflexivity].
    replace (Z.log2 (Z.max w (Z.max h d)) + 1)
      with (Z.succ (Z.log2 (Z.max w (Z.max h d)))) by lia.
    apply Z.log2_spec. lia.
  - intros j Hj ->. rewrite Z.log2_pow2 by assumption. f_equal. lia.
  - intros ->. reflexivity.
Qed.

Lemma NumMipLevels_floor_log2_witness :
  (exists k, 0 <= k /\ 2^k <= Z.max 1 (Z.max 64 48) < 2^(k+1) /\
             NumMipLevels 1 64 48 = Some (1 + k)) /\
  NumMipLevels 1 64 48 = Some (6 + 1).
Proof.
  pose proof (NumMipLevels_floor_log2 1 64 48 ltac:(lia) ltac:(lia) ltac:(lia))
    as (Hk & Hj & _).
  split; [exact Hk |].
  apply (Hj 6); [lia | reflexivity].
Defined.

(** C4.  For every texture type and extent, at every MIP level that is not
    below the number of MIP levels, [GetMipExtent] returns the zero
    extent. *)
Theorem GetMipExtent_out_of_range (ty : TextureType) (e : Extent3D) (n L : Z) :
  NumMipLevels_type ty e = Some n ->
  n <= L ->
  GetMipExtent ty e L = Some zeroExtent.
Proof.
  intros Hn HL. unfold GetMipExtent. rewrite Hn.
  destruct (Z.ltb_spec L n); [lia | reflexivity].
Qed.

Lemma GetMipExtent_out_of_range_witness :
  GetMipExtent Texture2D (mkExtent3D 64 64 1) 7 = Some zeroExtent.
Proof.
  apply (GetMipExtent_out_of_range Texture2D (mkExtent3D 64 64 1) 7 7);
    [reflexivity | lia].
Defined.

(** C2 as stated fails: at level 1 a multisample array texture of extent
    4x4x2 yields the zero extent, and at level 0 a [Texture2DMS] of depth 2
    yields depth 1. *)
Lemma GetMipExtent_multisample_not_identity :
  GetMipExtent Texture2DMSArray (mkExtent3D 4 4 2) 1 = Some zeroExtent /\
  zeroExtent <> mkExtent3D 4 4 2 /\
  GetMipExtent Texture2DMS (mkExtent3D 4 4 2) 0 = Some (mkExtent3D 4 4 1) /\
  mkExtent3D 4 4 1 <> mkExtent3D 4 4 2.
Proof. repeat split; try reflexivity; discriminate. Qed.

(** C2, amended.  For a multisample texture type the width and height are
    never scaled: at level 0 [GetMipExtent] returns the width and height of
    the input, with the third component of the input for [Texture2DMSArray]
    and 1 for [Texture2DMS]; at every level from 1 on (there is exactly one
    MIP level) it returns the zero extent. *)
Theorem GetMipExtent_multisample (ty : TextureType) (e : Extent3D) (L : Z) :
  IsMultiSampleTexture ty = true ->
  0 <= L ->
  GetMipExtent ty e L =
  Some (if L =? 0
        then mkExtent3D (x e) (y e)
               (match ty with Texture2DMS => 1 | _ => z e end)
        else zeroExtent).
Proof.
  intros Hms HL.
  destruct ty; try discriminate Hms; unfold GetMipExtent; cbn [NumMipLevels_type];
    destruct (Z.eqb_spec L 0) as [-> | Hne]; try reflexivity;
    destruct (Z.ltb_spec L 1); try lia; reflexivity.
Qed.

Lemma GetMipExtent_multisample_witness :
  GetMipExtent Texture2DMSArray (mkExtent3D 4 4 2) 0 = Some (mkExtent3D 4 4 2).
Proof.
  apply (GetMipExtent_multisample Texture2DMSArray (mkExtent3D 4 4 2) 0);
    [reflexivity | lia].
Defined.




(** ** The MIP chain *)

Lemma MipExtent_pos (ext L : Z) : 1 <= MipExtent ext L.
Proof. unfold MipExtent. lia. Qed.

Lemma MipExtent_div (ext L : Z) :
  0 <= L -> MipExtent ext L = Z.max 1 (ext / 2^L).
Proof. intros HL. unfold MipExtent. rewrite Z.shiftr_div_pow2 by exact HL. reflexivity. Qed.

(** X3.  Each MIP level halves the one before, rounding down, and never goes
    below 1: for a 32-bit extent and levels up to 31 (where the shift is
    defined), [MipExtent ext (L+1) = max(1, MipExtent ext L / 2)]. *)
Theorem MipExtent_halves (ext L : Z) :
  0 <= ext < 2^32 -> 0 <= L < 31 ->
  MipExtent ext (L + 1) = Z.max 1 (MipExtent ext L / 2).
Proof.
  intros Hext HL. unfold MipExtent.
  rewrite <- (Z.shiftr_shiftr ext L 1) by lia.
  rewrite (Z.shiftr_div_pow2 (Z.shiftr ext L) 1) by lia.
  change (2^1) with 2.
  assert (Ha : 0 <= Z.shiftr ext L) by (apply Z.shiftr_nonneg; lia).
  destruct (Z.eq_dec (Z.shiftr ext L) 0) as [-> | Hne].
  - reflexivity.
  - rewrite (Z.max_r 1 (Z.shiftr ext L)) by lia. reflexivity.
Qed.

Lemma MipExtent_halves_witness :
  MipExtent 50 (2 + 1) = Z.max 1 (MipExtent 50 2 / 2).
Proof. apply (MipExtent_halves 50 2); lia. Defined.

Lemma MipExtent_last (c k : Z) :
  0 <= k -> 1 <= c < 2^(k+1) -> MipExtent c k = 1.
Proof.
  intros Hk Hc. rewrite MipExtent_div by exact Hk.
  assert (c / 2^k < 2).
  { apply Z.div_lt_upper_bound; [apply Z.pow_pos_nonneg; lia |].
    rewrite Z.pow_add_r in Hc by lia. lia. }
  assert (0 <= c / 2^k) by (apply Z.div_pos; [lia | apply Z.pow_pos_nonneg; lia]).
  lia.
Qed.

Lemma MipExtent_before_last (c k L : Z) :
  0 <= L < k -> 2^k <= c -> 2 <= MipExtent c L.
Proof.
  intros HL Hc. rewrite MipExtent_div by lia.
  assert (2^(k - L) <= c / 2^L).
  { apply Z.div_le_lower_bound; [apply Z.pow_pos_nonneg; lia |].
    rewrite <- Z.pow_add_r by lia. replace (L + (k - L)) with k by lia. exact Hc. }
  assert (2^1 <= 2^(k - L)) by (apply Z.pow_le_mono_r; lia).
  change (2^1) with 2 in *. lia.
Qed.

Lemma NumMipLevels_bounds (w h d n : Z) :
  1 <= max3 w h d ->
  NumMipLevels w h d = Some n ->
  1 <= n /\ 2^(n-1) <= max3 w h d < 2^(n-1+1).
Proof.
  intros Hm. rewrite NumMipLevels_log2 by lia. intros [= <-].
  pose proof (Z.log2_nonneg (max3 w h d)).
  pose proof (Z.log2_spec (max3 w h d) ltac:(lia)) as Hs.
  replace (1 + Z.log2 (max3 w h d) - 1) with (Z.log2 (max3 w h d)) by lia.
  replace (Z.log2 (max3 w h d) + 1) with (Z.succ (Z.log2 (max3 w h d))) by lia.
  split; [lia | exact Hs].
Qed.

(** X4.  For a one-, two- or three-dimensional texture whose extent has no
    zero component, the MIP chain reaches 1x1x1 at its last level and not
    before: among the levels below [NumMipLevels], the MIP extent is
    [{1,1,1}] exactly at level [NumMipLevels - 1]. *)
Theorem mip_chain_ends_at_one (ty : TextureType) (e : Extent3D) (n L : Z) :
  is_plain_texture ty = true ->
  1 <= x e -> 1 <= y e -> 1 <= z e ->
  NumMipLevels_type ty e = Some n ->
  0 <= L < n ->
  (GetMipExtent ty e L = Some (mkExtent3D 1 1 1) <-> L = n - 1).
Proof.
  intros Hty Hx Hy Hz Hn HL.
  unfold GetMipExtent. rewrite Hn.
  destruct (Z.ltb_spec L n) as [_ | ?]; [| lia].
  destruct ty; try discriminate Hty; cbn [NumMipLevels_type] in Hn;
    unfold default_height, default_depth in Hn;
    (apply NumMipLevels_bounds in Hn; [| unfold max3; lia]);
    destruct Hn as [Hn1 Hb]; unfold max3 in Hb.
  - (* Texture1D *)
    split.
    + intros [= H1]. destruct (Z.eq_dec L (n - 1)) as [| Hne]; [assumption |].
      pose proof (MipExtent_before_last (x e) (n - 1) L ltac:(lia) ltac:(lia)). lia.
    + intros ->. rewrite (MipExtent_last (x e) (n - 1)) by lia. reflexivity.
  - (* Texture2D *)
    split.
    + intros [= H1 H2]. destruct (Z.eq_dec L (n - 1)) as [| Hne]; [assumption |].
      destruct (Z.max_spec (x e) (y e)) as [[_ Hmax] | [_ Hmax]].
      * pose proof (MipExtent_before_last (y e) (n - 1) L ltac:(lia) ltac:(lia)). lia.
      * pose proof (MipExtent_before_last (x e) (n - 1) L ltac:(lia) ltac:(lia)). lia.
    + intros ->.
      rewrite (MipExtent_last (x e) (n - 1)), (MipExtent_last (y e) (n - 1)) by lia.
      reflexivity.
  - (* Texture3D *)
    split.
    + intros [= H1 H2 H3]. destruct (Z.eq_dec L (n - 1)) as [| Hne]; [assumption |].
      destruct (Z.max_spec (Z.max (x e) (y e)) (z e)) as [[_ Hmax] | [_ Hmax]].
      * pose proof (MipExtent_before_last (z e) (n - 1) L ltac:(lia) ltac:(lia)). lia.
      * destruct (Z.max_spec (x e) (y e)) as [[_ Hmax'] | [_ Hmax']].
        -- pose proof (MipExtent_before_last (y e) (n - 1) L ltac:(lia) ltac:(lia)). lia.
        -- pose proof (MipExtent_before_last (x e) (n - 1) L ltac:(lia) ltac:(lia)). lia.
    + intros ->.
      rewrite (MipExtent_last (x e) (n - 1)), (MipExtent_last (y e) (n - 1)),
        (MipExtent_last (z e) (n - 1)) by lia.
      reflexivity.
Qed.

Lemma mip_chain_ends_at_one_witness :
  GetMipExtent Texture3D (mkExtent3D 50 20 3) 5 = Some (mkExtent3D 1 1 1) <-> 5 = 6 - 1.
Proof.
  apply (mip_chain_ends_at_one Texture3D (mkExtent3D 50 20 3) 6 5);
    cbn; try reflexivity; lia.
Defined.

(** ** The out-of-range sentinel *)

(** X5.  For every texture type other than [Texture2DMSArray], the zero
    extent is returned for the levels that do not exist and for no other
    level: [GetMipExtent] yields [{0,0,0}] exactly when the level is not below
    [NumMipLevels]. *)
Theorem zero_extent_iff_out_of_range (ty : TextureType) (e : Extent3D) (n L : Z) :
  ty <> Texture2DMSArray ->
  NumMipLevels_type ty e = Some n ->
  (GetMipExtent ty e L = Some zeroExtent <-> n <= L).
Proof.
  intros Hty Hn. unfold GetMipExtent. rewrite Hn.
  destruct (Z.ltb_spec L n) as [Hlt | Hge].
  - split; [| lia].
    pose proof (MipExtent_pos (x e) L).
    destruct ty; try contradiction; unfold zeroExtent; intros [= ?]; try lia.
  - split; [intros _; exact Hge | reflexivity].
Qed.

Lemma zero_extent_iff_out_of_range_witness :
  GetMipExtent TextureCube (mkExtent3D 8 8 6) 4 = Some zeroExtent <-> 4 <= 4.
Proof.
  apply (zero_extent_iff_out_of_range TextureCube (mkExtent3D 8 8 6) 4 4);
    [discriminate | reflexivity].
Defined.

(** ** The two overloads of [GetMipExtent] *)

(** X6.  The overload of [GetMipExtent] that takes a descriptor and the one
    that takes type and extent agree at every level on the types without
    layers, and on the others whenever the extent carries the layer count
    that the descriptor overload uses (6 for a cube). *)
Theorem GetMipExtent_overloads_agree (d : TextureDescriptor) (L : Z) :
  layers_in_extent d ->
  GetMipExtent_desc d L = GetMipExtent (type d) (extent d) L.
Proof.
  unfold layers_in_extent, GetMipExtent_desc, GetMipExtent. cbv zeta.
  destruct (NumMipLevels_type (type d) (extent d)) as [n |]; [| reflexivity].
  destruct (L <? n); [| reflexivity].
  destruct (type d); intros H; rewrite <- ?H; reflexivity.
Qed.

Lemma GetMipExtent_overloads_agree_witness :
  GetMipExtent_desc (mkTextureDescriptor Texture2DArray (mkExtent3D 32 16 5) 5 0) 2
  = GetMipExtent Texture2DArray (mkExtent3D 32 16 5) 2.
Proof.
  apply (GetMipExtent_overloads_agree
           (mkTextureDescriptor Texture2DArray (mkExtent3D 32 16 5) 5 0) 2).
  reflexivity.
Defined.

(** ** Texel counts *)

Lemma GetMipExtent_out_of_range_aux (ty : TextureType) (e : Extent3D) (n L : Z) :
  NumMipLevels_type ty e = Some n -> n <= L -> GetMipExtent ty e L = Some zeroExtent.
Proof.
  intros Hn HL. unfold GetMipExtent. rewrite Hn.
  destruct (Z.ltb_spec L n); [lia | reflexivity].
Qed.

Lemma MipExtent_le (ext L : Z) : 1 <= ext -> 0 <= L -> MipExtent ext L <= ext.
Proof.
  intros Hext HL. rewrite MipExtent_div by exact HL.
  assert (ext / 2^L <= ext / 1).
  { apply Z.div_le_compat_l; [lia |].
    pose proof (Z.pow_pos_nonneg 2 L ltac:(lia) HL). lia. }
  rewrite Z.div_1_r in *. lia.
Qed.

(** X7.  [NumMipTexels] is 0 at every level that does not exist.  For a
    three-dimensional texture whose extent has no zero component and fewer
    than [2^32] texels, it is at every existing level the exact product of
    the three MIP extents (nothing wraps), at least 1 and at most the texel
    count of the texture. *)
Theorem NumMipTexels_spec (ty : TextureType) (e : Extent3D) (n L : Z) :
  NumMipLevels_type ty e = Some n ->
  (n <= L -> NumMipTexels ty e L = Some 0) /\
  (ty = Texture3D -> 1 <= x e -> 1 <= y e -> 1 <= z e ->
   x e * y e * z e < 2^32 -> 0 <= L < n ->
   NumMipTexels ty e L =
     Some (MipExtent (x e) L * MipExtent (y e) L * MipExtent (z e) L) /\
   1 <= MipExtent (x e) L * MipExtent (y e) L * MipExtent (z e) L <= x e * y e * z e).
Proof.
  intros Hn. split.
  - intros HL. unfold NumMipTexels.
    rewrite (GetMipExtent_out_of_range_aux ty e n L Hn HL). reflexivity.
  - intros -> Hx Hy Hz Hprod HL.
    pose proof (MipExtent_pos (x e) L) as Px.
    pose proof (MipExtent_pos (y e) L) as Py.
    pose proof (MipExtent_pos (z e) L) as Pz.
    pose proof (MipExtent_le (x e) L Hx ltac:(lia)) as Lx.
    pose proof (MipExtent_le (y e) L Hy ltac:(lia)) as Ly.
    pose proof (MipExtent_le (z e) L Hz ltac:(lia)) as Lz.
    assert (Hxy : MipExtent (x e) L * MipExtent (y e) L <= x e * y e) by nia.
    assert (Hxy1 : 1 <= MipExtent (x e) L * MipExtent (y e) L) by nia.
    assert (Hxyz : MipExtent (x e) L * MipExtent (y e) L * MipExtent (z e) L
                   <= x e * y e * z e) by nia.
    assert (Hxyz1 : 1 <= MipExtent (x e) L * MipExtent (y e) L * MipExtent (z e) L) by nia.
    split; [| lia].
    unfold NumMipTexels, GetMipExtent. rewrite Hn.
    destruct (Z.ltb_spec L n); [| lia]. cbn [x y z].
    unfold to_uint32. f_equal.
    assert (Hxy' : x e * y e < 2^32) by nia.
    rewrite (Z.mod_small (MipExtent (x e) L * MipExtent (y e) L)) by lia.
    apply Z.mod_small. lia.
Qed.

Lemma NumMipTexels_spec_witness :
  NumMipTexels Texture3D (mkExtent3D 50 20 3) 9 = Some 0 /\
  NumMipTexels Texture3D (mkExtent3D 50 20 3) 2 = Some (12 * 5 * 1).
Proof.
  split.
  - apply (proj1 (NumMipTexels_spec Texture3D (mkExtent3D 50 20 3) 6 9 eq_refl)). lia.
  - apply (proj2 (NumMipTexels_spec Texture3D (mkExtent3D 50 20 3) 6 2 eq_refl));
      cbn; try reflexivity; lia.
Defined.

(** ** Classification of texture types *)

(** X8.  The predicates on texture types fit together: a multisample type
    is one at or after [Texture2DMS] in the enumeration; the number of MIP
    dimensions is the number of texture dimensions, plus one for an array
    type (the layers); and no type is both a cube and a multisample type. *)
Theorem texture_type_classification (ty : TextureType) :
  IsMultiSampleTexture ty = (TextureType_value Texture2DMS <=? TextureType_value ty) /\
  NumMipDimensions ty = NumTextureDimensions ty + (if IsArrayTexture ty then 1 else 0) /\
  (IsCubeTexture ty && IsMultiSampleTexture ty = false) /\
  1 <= NumTextureDimensions ty <= NumMipDimensions ty /\
  NumMipDimensions ty <= 3.
Proof. destruct ty; repeat split; cbn; lia. Qed.

(** X9.  A descriptor of a type that is not multisampled and that
    [IsMipMappedTexture] rejects has exactly one MIP level, and a descriptor
    with more than one MIP level (given or computed) of such a type is
    MIP-mapped; a multisample descriptor is never MIP-mapped. *)
Theorem IsMipMappedTexture_levels (d : TextureDescriptor) :
  0 <= mipLevels d ->
  (IsMultiSampleTexture (type d) = true -> IsMipMappedTexture d = false) /\
  (IsMultiSampleTexture (type d) = false ->
     (IsMipMappedTexture d = false -> NumMipLevels_desc d = Some 1) /\
     (forall n, NumMipLevels_desc d = Some n -> 1 < n -> IsMipMappedTexture d = true)).
Proof.
  intros Hm. unfold IsMipMappedTexture, NumMipLevels_desc. split.
  - intros ->. reflexivity.
  - intros ->. cbn [negb andb]. split.
    + destruct (Z.eqb_spec (mipLevels d) 0); [discriminate |].
      destruct (Z.ltb_spec 1 (mipLevels d)); [discriminate |].
      intros _. f_equal. lia.
    + intros n. destruct (Z.eqb_spec (mipLevels d) 0); [reflexivity |].
      intros [= <-] Hn. cbn. apply Z.ltb_lt. exact Hn.
Qed.

Lemma IsMipMappedTexture_levels_witness :
  IsMipMappedTexture (mkTextureDescriptor Texture2D (mkExtent3D 64 64 1) 1 1) = false /\
  NumMipLevels_desc (mkTextureDescriptor Texture2D (mkExtent3D 64 64 1) 1 1) = Some 1.
Proof.
  split; [reflexivity |].
  refine (proj1 (proj2 (IsMipMappedTexture_levels
            (mkTextureDescriptor Texture2D (mkExtent3D 64 64 1) 1 1) _) _) _).
  - cbn. lia.
  - reflexivity.
  - reflexivity.
Defined.

End TextureFlagsFacts.

Module UTF8Facts.
Import UTF8.

(** ** Concrete strings *)

Example encode_ascii :
  UTF8String_of_WStringView [0x48; 0x69] = mkUTF8String [0x48; 0x69; 0].
Proof. reflexivity. Qed.

Example encode_euro :
  UTF8String_of_WStringView [0x20AC] = mkUTF8String [0xE2; 0x82; 0xAC; 0].
Proof. reflexivity. Qed.

Example roundtrip_euro :
  forall sgn, to_utf16 sgn (UTF8String_of_WStringView [0x48; 0x20AC]) = Ok [0x48; 0x20AC; 0].
Proof. intros []; reflexivity. Qed.

Example encode_e_acute :
  UTF8String_of_WStringView [0xE9] = mkUTF8String [0xC3; 0xA9; 0].
Proof. reflexivity. Qed.

(** C1, at the inputs where the code departs from it.  Whatever the
    signedness of [char]: the one-character wide string U+00E9 is stored as
    the two bytes C3 A9, and [to_utf16] reads them back as U+0069 (the first
    byte's payload is shifted by 5 where 6 is needed); the one-character wide
    string U+FFFF is stored as the four bytes F0 8F BF BF (the three-byte
    case tests [code < 0xFFFF]), which [to_utf16] answers with a trap. *)
Theorem to_utf16_roundtrip_breaks (char_is_signed : bool) :
  to_utf16 char_is_signed (UTF8String_of_WStringView [0xE9]) = Ok [0x69; 0] /\
  UTF8String_of_WStringView [0xFFFF] = mkUTF8String [0xF0; 0x8F; 0xBF; 0xBF; 0] /\
  to_utf16 char_is_signed (UTF8String_of_WStringView [0xFFFF]) = Trap.
Proof. destruct char_is_signed; repeat split; reflexivity. Qed.

(** ** The buffer invariant *)

Lemma terminated_size (payload : list Z) :
  size (mkUTF8String (payload ++ [0])) = Z.of_nat (length payload).
Proof.
  unfold size. cbn [data_].
  destruct (payload ++ [0]) eqn:E.
  - destruct payload; discriminate E.
  - rewrite <- E, length_app. cbn. lia.
Qed.

Lemma terminated_NUL_terminated (s : UTF8String) :
  terminated s -> NUL_terminated s.
Proof.
  intros [payload Hd]. destruct s as [d]. cbn in Hd. subst d.
  unfold NUL_terminated, at_. rewrite terminated_size. cbn [data_]. split.
  - rewrite length_app. cbn. lia.
  - rewrite Nat2Z.id. rewrite lookup_app_r by lia.
    replace (length payload - length payload)%nat with 0%nat by lia.
    reflexivity.
Qed.

Lemma terminated_push_back (d : list Z) : terminated (mkUTF8String (push_back d 0)).
Proof. exists d. reflexivity. Qed.

Lemma terminated_default : terminated UTF8String_default.
Proof. exists []. reflexivity. Qed.

Lemma terminated_clear (s : UTF8String) : terminated (clear s).
Proof. exists []. reflexivity. Qed.

Lemma terminated_of_StringView (str : list Z) :
  terminated (UTF8String_of_StringView str).
Proof. apply terminated_push_back. Qed.

Lemma terminated_of_WStringView (str : list Z) :
  terminated (UTF8String_of_WStringView str).
Proof. apply terminated_push_back. Qed.

Lemma terminated_resize (s : UTF8String) (new_size ch : Z) :
  terminated s -> terminated (resize s new_size ch).
Proof.
  intros Hs. unfold resize.
  destruct (negb (new_size =? size s)); [apply terminated_push_back | exact Hs].
Qed.

Lemma terminated_append_fill (s : UTF8String) (count ch : Z) :
  terminated s -> terminated (append_fill s count ch).
Proof. apply terminated_resize. Qed.

Lemma terminated_append (s : UTF8String) (range : list Z) :
  terminated s -> terminated (append s range).
Proof.
  intros Hs. unfold append.
  destruct (0 <? Z.of_nat (length range)); [apply terminated_push_back | exact Hs].
Qed.

Lemma terminated_append_wchar (s : UTF8String) (chr : Z) :
  terminated s -> terminated (append_wchar s chr).
Proof.
  intros Hs. unfold append_wchar, append_wide.
  destruct (1 <? GetUTF8CharCount chr);
    [apply terminated_append | apply terminated_append_fill]; exact Hs.
Qed.

Lemma terminated_copy (r : UTF8String) :
  terminated r -> terminated (mkUTF8String (data_ r)).
Proof. intros [p Hp]. exists p. exact Hp. Qed.

Create HintDb utf8.

#[local] Hint Resolve terminated_default terminated_clear terminated_of_StringView
  terminated_of_WStringView terminated_resize terminated_append_fill
  terminated_append terminated_append_wchar terminated_copy : utf8.

Lemma Forall_alter_terminated (f : UTF8String -> UTF8String) (i : nat) (st : store) :
  (forall s, terminated s -> terminated (f s)) ->
  Forall terminated st -> Forall terminated (alter f i st).
Proof.
  intros Hf Hst. apply Forall_alter; [exact Hst |].
  intros s _. apply Hf.
Qed.

Lemma step_terminated (st : store) (o : operation) :
  Forall terminated st -> Forall terminated (step st o).
Proof.
  intros Hst.
  assert (Hlook : forall j r, st !! j = Some r -> terminated r)
    by (intros j r Hj; exact (Forall_lookup_1 _ _ _ _ Hst Hj)).
  destruct o; cbn [step];
    try (apply Forall_app; split; [exact Hst | apply Forall_singleton; auto with utf8]);
    try (apply Forall_alter_terminated; [intros; unfold append_wide; auto with utf8 | exact Hst]).
  - (* NewCopy *)
    destruct (st !! rhs) eqn:E; [| exact Hst].
    apply Forall_app; split; [exact Hst |].
    apply Forall_singleton. eauto with utf8.
  - (* NewMove *)
    destruct (st !! rhs) eqn:E; [| exact Hst].
    apply Forall_app; split.
    + apply Forall_insert; auto with utf8.
    + apply Forall_singleton. eauto with utf8.
  - (* AppendString *)
    destruct (st !! rhs) eqn:E; [| exact Hst].
    apply Forall_alter_terminated; [intros; auto with utf8 | exact Hst].
  - (* AssignCopy *)
    destruct (st !! rhs) eqn:E; [| exact Hst].
    apply Forall_alter_terminated; [intros; eauto with utf8 | exact Hst].
  - (* AssignMove *)
    destruct (st !! rhs) eqn:E; [| exact Hst].
    destruct (decide (i < length st)%nat); [| exact Hst].
    apply Forall_alter_terminated; [intros; auto with utf8 |].
    apply Forall_alter_terminated; [intros; eauto with utf8 | exact Hst].
Qed.

Lemma fold_step_terminated (program : list operation) (st : store) :
  Forall terminated st -> Forall terminated (fold_left step program st).
Proof.
  revert st. induction program as [| o program IH]; intros st Hst; cbn.
  - exact Hst.
  - apply IH, step_terminated, Hst.
Qed.

(** C5.  After any sequence of constructions, [append]s (of a fill
    character, a character range, another string, a wide string or a wide
    character), [resize]s, [clear]s and copy or move assignments, every
    string in the program holds a buffer of [size() + 1] characters whose
    character at index [size()] is the terminator. *)
Theorem buffer_invariant (program : list operation) :
  Forall NUL_terminated (run program).
Proof.
  eapply Forall_impl.
  - apply fold_step_terminated. constructor.
  - apply terminated_NUL_terminated.
Qed.

Example buffer_invariant_run :
  run [NewFromStringView [0x61; 0x62]; New; AppendFill 1 3 0x78; AssignMove 0 1;
       Resize 0 1 0; AppendWide 0 [0xE9]]
  = [mkUTF8String [0x78; 0xC3; 0xA9; 0; 0]; mkUTF8String [0]].
Proof. reflexivity. Qed.

(** ** [substr] *)

Lemma view_terminated (payload : list Z) :
  view (mkUTF8String (payload ++ [0])) = payload.
Proof.
  unfold view. rewrite terminated_size, Nat2Z.id. cbn [data_].
  rewrite take_app_length. reflexivity.
Qed.

Lemma size_of_StringView (str : list Z) :
  size (UTF8String_of_StringView str) = Z.of_nat (length str).
Proof. apply terminated_size. Qed.

Lemma view_of_StringView (str : list Z) : view (UTF8String_of_StringView str) = str.
Proof. apply view_terminated. Qed.

Lemma NUL_terminated_terminated (s : UTF8String) :
  NUL_terminated s -> terminated s.
Proof.
  destruct s as [d]. unfold NUL_terminated, at_, size. cbn [data_].
  intros [Hlen Hat].
  destruct d as [| c d]; [cbn in Hlen; lia |].
  replace (Z.to_nat (Z.of_nat (length (c :: d)) - 1)) with (length d) in Hat
    by (cbn [length]; lia).
  apply last_Some. rewrite last_lookup. exact Hat.
Qed.

(** ** Decoding what the encoder wrote *)

(** The encoder appends: the bytes of a code do not depend on what is
    already in the vector. *)
Lemma AppendUTF8Character_app (str : list Z) (code : Z) :
  AppendUTF8Character str code = str ++ AppendUTF8Character [] code.
Proof.
  unfold AppendUTF8Character, push_back.
  repeat match goal with |- context [if ?b then _ else _] => destruct b end;
    cbn [app]; rewrite <- ?app_assoc; reflexivity.
Qed.

Lemma fold_AppendUTF8Character (s : list Z) (str : list Z) :
  fold_left AppendUTF8Character s str = str ++ flat_map (AppendUTF8Character []) s.
Proof.
  revert str. induction s as [| c s IH]; intros str; cbn [fold_left flat_map].
  - rewrite app_nil_r. reflexivity.
  - rewrite IH, AppendUTF8Character_app, <- app_assoc. reflexivity.
Qed.

Lemma view_of_WStringView (s : list Z) :
  view (UTF8String_of_WStringView s) = flat_map (AppendUTF8Character []) s.
Proof.
  unfold UTF8String_of_WStringView, ConvertWStringViewToUTF8CharArray, push_back.
  rewrite view_terminated. apply (fold_AppendUTF8Character s []).
Qed.

(** *** Bit arithmetic of the encoding *)

Lemma lor_pow2_add (hi k lo : Z) :
  0 <= k -> 0 <= lo < 2^k -> Z.lor (hi * 2^k) lo = hi * 2^k + lo.
Proof.
  intros Hk Hlo.
  assert (Hdisjoint : Z.land (hi * 2^k) lo = 0).
  { apply Z.bits_inj'. intros n Hn. rewrite Z.land_spec, Z.bits_0.
    destruct (Z.lt_ge_cases n k) as [Hlt | Hge].
    - rewrite Z.mul_pow2_bits_low by lia. reflexivity.
    - rewrite <- (Z.mod_small lo (2^k)) by lia.
      rewrite Z.mod_pow2_bits_high by lia. apply andb_false_r. }
  rewrite Z.add_nocarry_lxor by exact Hdisjoint.
  symmetry. apply Z.lxor_lor. exact Hdisjoint.
Qed.

Lemma land_ones_bounds (v n : Z) : 0 <= n -> 0 <= Z.land v (Z.ones n) < 2^n.
Proof.
  intros Hn. rewrite Z.land_ones by exact Hn.
  apply Z.mod_pos_bound. apply Z.pow_pos_nonneg; lia.
Qed.

(** The three payloads of a code below [2^16] put together again. *)
Lemma recombine_three (code : Z) :
  0 <= code < 2^16 ->
  Z.lor (Z.lor (Z.shiftl (Z.land (Z.shiftr code 12) 0x0F) 12)
               (Z.shiftl (Z.land (Z.shiftr code 6) 0x3F) 6))
        (Z.land code 0x3F) = code.
Proof.
  intros Hc.
  change 0x0F with (Z.ones 4). change 0x3F with (Z.ones 6).
  rewrite !Z.land_ones, !Z.shiftr_div_pow2, !Z.shiftl_mul_pow2 by lia.
  change (2^4) with 16. change (2^6) with 64. change (2^12) with 4096.
  assert (H0 : 0 <= (code / 4096) mod 16 < 16) by (apply Z.mod_pos_bound; lia).
  assert (H1 : 0 <= (code / 64) mod 64 < 64) by (apply Z.mod_pos_bound; lia).
  assert (H2 : 0 <= code mod 64 < 64) by (apply Z.mod_pos_bound; lia).
  change 4096 with (2^12) at 2.
  rewrite lor_pow2_add by (change (2^12) with 4096; lia).
  replace ((code / 4096) mod 16 * 2^12 + (code / 64) mod 64 * 64)
    with (((code / 4096) mod 16 * 64 + (code / 64) mod 64) * 2^6)
    by (change (2^12) with 4096; change (2^6) with 64; lia).
  rewrite lor_pow2_add by (change (2^6) with 64; lia).
  change (2^6) with 64.
  clear H0 H1 H2. Z.div_mod_to_equations. lia.
Qed.

(** What the two-byte branch of the decoder puts together is below the
    code that was encoded. *)
Lemma recombine_two_below (code : Z) :
  0x80 <= code < 0x0800 ->
  Z.lor (Z.shiftl (Z.land (Z.shiftr code 6) 0x1F) 5) (Z.land code 0x3F) < code.
Proof.
  intros Hc.
  change 0x1F with (Z.ones 5). change 0x3F with (Z.ones 6).
  rewrite !Z.land_ones, !Z.shiftr_div_pow2, !Z.shiftl_mul_pow2 by lia.
  change (2^5) with 32. change (2^6) with 64.
  assert (H0 : 0 <= (code / 64) mod 32 < 32) by (apply Z.mod_pos_bound; lia).
  assert (H1 : 0 <= code mod 64 < 64) by (apply Z.mod_pos_bound; lia).
  pose proof (Z.add_lor_land ((code / 64) mod 32 * 32) (code mod 64)) as Hsum.
  assert (Hland : 0 <= Z.land ((code / 64) mod 32 * 32) (code mod 64))
    by (apply Z.land_nonneg; lia).
  clear H0 H1. Z.div_mod_to_equations. lia.
Qed.

(** *** The bytes of one character, as the decoder tests them *)

Lemma forallb_seqZ (P : Z -> bool) (lo len : Z) :
  forallb P (seqZ lo len) = true ->
  forall c, lo <= c < lo + len -> P c = true.
Proof.
  intros Hall c Hc. rewrite forallb_forall in Hall.
  apply Hall, list_elem_of_In, elem_of_seqZ. exact Hc.
Qed.

Lemma lead3_facts (w : Z) :
  0 <= w < 16 ->
  let b := static_cast_char (Z.lor 0xE0 w) in
  (Z.land b 0x80 =? 0x00) = false /\ (Z.land b 0xE0 =? 0xC0) = false /\
  (Z.land b 0xF0 =? 0xE0) = true /\ Z.land b 0x0F = w.
Proof.
  intros Hw.
  assert (Hall : forallb lead3_ok (seqZ 0 16) = true) by (vm_compute; reflexivity).
  pose proof (forallb_seqZ _ _ _ Hall w ltac:(lia)) as Hok.
  unfold lead3_ok in Hok. cbv zeta in *.
  apply andb_prop in Hok as [Hok H4]. apply andb_prop in Hok as [Hok H3].
  apply andb_prop in Hok as [H1 H2].
  apply negb_true_iff in H1, H2. apply Z.eqb_eq in H4.
  repeat split; assumption.
Qed.

Lemma lead2_facts (w : Z) :
  0 <= w < 32 ->
  let b := static_cast_char (Z.lor 0xC0 w) in
  (Z.land b 0x80 =? 0x00) = false /\ (Z.land b 0xE0 =? 0xC0) = true /\
  Z.land b 0x1F = w.
Proof.
  intros Hw.
  assert (Hall : forallb lead2_ok (seqZ 0 32) = true) by (vm_compute; reflexivity).
  pose proof (forallb_seqZ _ _ _ Hall w ltac:(lia)) as Hok.
  unfold lead2_ok in Hok. cbv zeta in *.
  apply andb_prop in Hok as [Hok H3]. apply andb_prop in Hok as [H1 H2].
  apply negb_true_iff in H1. apply Z.eqb_eq in H3.
  repeat split; assumption.
Qed.

Lemma continuation_facts (sgn : bool) (w : Z) :
  0 <= w < 64 ->
  Z.land (char_to_int sgn (static_cast_char (Z.lor 0x80 w))) 0x3F = w.
Proof.
  intros Hw.
  assert (Hall : forallb (continuation_ok sgn) (seqZ 0 64) = true)
    by (destruct sgn; vm_compute; reflexivity).
  apply Z.eqb_eq. exact (forallb_seqZ _ _ _ Hall w ltac:(lia)).
Qed.

Lemma ascii_facts (c : Z) :
  0 <= c < 0x80 -> static_cast_char c = c /\ (Z.land c 0x80 =? 0x00) = true.
Proof.
  intros Hc.
  assert (Hall : forallb ascii_ok (seqZ 0 0x80) = true) by (vm_compute; reflexivity).
  pose proof (forallb_seqZ _ _ _ Hall c ltac:(lia)) as Hok.
  unfold ascii_ok in Hok. apply andb_prop in Hok as [H1 H2].
  apply Z.eqb_eq in H1. split; assumption.
Qed.

(** *** One character through encoder and decoder *)

Lemma decode_one_byte (sgn : bool) (code : Z) (rest acc : list Z) :
  0 <= code < 0x80 ->
  ConvertToUTF16_loop sgn (AppendUTF8Character [] code ++ rest) acc
  = ConvertToUTF16_loop sgn rest (acc ++ [code]).
Proof.
  intros Hc. destruct (ascii_facts code Hc) as [Hcast Hbit].
  unfold AppendUTF8Character.
  destruct (Z.ltb_spec code 0x80); [| lia].
  unfold push_back. cbn [app ConvertToUTF16_loop].
  rewrite Hcast, Hbit. reflexivity.
Qed.

Lemma decode_three_bytes (sgn : bool) (code : Z) (rest acc : list Z) :
  0x07FF <= code < 0xFFFF ->
  ConvertToUTF16_loop sgn (AppendUTF8Character [] code ++ rest) acc
  = ConvertToUTF16_loop sgn rest (acc ++ [code]).
Proof.
  intros Hc. unfold AppendUTF8Character.
  destruct (Z.ltb_spec code 0x80); [lia |].
  destruct (Z.ltb_spec code 0x07FF); [lia |].
  destruct (Z.ltb_spec code 0xFFFF); [| lia].
  unfold push_back. cbn [app ConvertToUTF16_loop].
  destruct (lead3_facts (Z.land (Z.shiftr code 12) 0x0F) (land_ones_bounds _ 4 ltac:(lia)))
    as (E1 & E2 & E3 & E4).
  rewrite E1, E2, E3, E4.
  rewrite !continuation_facts by (apply (land_ones_bounds _ 6); lia).
  unfold push_back. rewrite recombine_three by lia. reflexivity.
Qed.

Lemma decode_two_bytes (sgn : bool) (code : Z) (rest acc : list Z) :
  0x80 <= code < 0x07FF ->
  exists code', code' < code /\
    ConvertToUTF16_loop sgn (AppendUTF8Character [] code ++ rest) acc
    = ConvertToUTF16_loop sgn rest (acc ++ [code']).
Proof.
  intros Hc.
  exists (Z.lor (Z.shiftl (Z.land (Z.shiftr code 6) 0x1F) 5) (Z.land code 0x3F)).
  split; [apply recombine_two_below; lia |].
  unfold AppendUTF8Character.
  destruct (Z.ltb_spec code 0x80); [lia |].
  destruct (Z.ltb_spec code 0x07FF); [| lia].
  unfold push_back. cbn [app ConvertToUTF16_loop].
  destruct (lead2_facts (Z.land (Z.shiftr code 6) 0x1F) (land_ones_bounds _ 5 ltac:(lia)))
    as (E1 & E2 & E3).
  rewrite E1, E2, E3.
  rewrite continuation_facts by (apply (land_ones_bounds _ 6); lia).
  reflexivity.
Qed.

Lemma ConvertToUTF16_loop_encoded (sgn : bool) (s acc : list Z) :
  Forall survives s ->
  ConvertToUTF16_loop sgn (flat_map (AppendUTF8Character []) s) acc = Ok (acc ++ s).
Proof.
  intros Hs. revert acc. induction Hs as [| c s Hc Hs IH]; intros acc.
  - cbn. rewrite app_nil_r. reflexivity.
  - cbn [flat_map].
    destruct Hc as [Hc | Hc];
      [rewrite decode_one_byte by exact Hc | rewrite decode_three_bytes by exact Hc];
      rewrite IH, <- app_assoc; reflexivity.
Qed.

(** X1.  The round trip on the code points that survive: a wide string over
    U+0000..U+007F and U+07FF..U+FFFE is read back by [to_utf16] as it was
    given, followed by the terminator. *)
Theorem to_utf16_roundtrip (char_is_signed : bool) (s : list Z) :
  Forall survives s ->
  to_utf16 char_is_signed (UTF8String_of_WStringView s) = Ok (s ++ [0]).
Proof.
  intros Hs. unfold to_utf16, ConvertToUTF16WCharArray.
  rewrite view_of_WStringView, (ConvertToUTF16_loop_encoded _ _ [] Hs).
  reflexivity.
Qed.

Lemma to_utf16_roundtrip_witness :
  to_utf16 true (UTF8String_of_WStringView [0x48; 0x20AC; 0x07FF])
  = Ok ([0x48; 0x20AC; 0x07FF] ++ [0]).
Proof.
  apply (to_utf16_roundtrip true [0x48; 0x20AC; 0x07FF]).
  repeat constructor; unfold survives; lia.
Defined.

(** X2.  No code point of the two-byte range U+0080..U+07FE is read back
    as it was given: [to_utf16] answers with a smaller code. *)
Theorem to_utf16_two_bytes_lost (char_is_signed : bool) (code : Z) :
  0x80 <= code < 0x07FF ->
  exists code', code' < code /\
    to_utf16 char_is_signed (UTF8String_of_WStringView [code]) = Ok ([code'] ++ [0]).
Proof.
  intros Hc.
  destruct (decode_two_bytes char_is_signed code [] [] Hc) as (code' & Hlt & Hdec).
  exists code'. split; [exact Hlt |].
  unfold to_utf16, ConvertToUTF16WCharArray.
  rewrite view_of_WStringView. cbn [flat_map]. rewrite Hdec. reflexivity.
Qed.

Lemma to_utf16_two_bytes_lost_witness :
  exists code', code' < 0xE9 /\
    to_utf16 false (UTF8String_of_WStringView [0xE9]) = Ok ([code'] ++ [0]).
Proof. apply (to_utf16_two_bytes_lost false 0xE9). lia. Defined.

(** C10.  For a string that satisfies the buffer invariant and a position
    and count of type [size_type]: [substr] traps exactly when the position
    exceeds [size()]; otherwise it returns the string whose characters are
    those of this string from the position on, [min(count, size() - pos)] of
    them (a larger count is clamped). *)
Theorem substr_spec (s : UTF8String) (pos count : Z) :
  NUL_terminated s -> 0 <= pos -> 0 <= count ->
  (size s < pos -> substr s pos count = Trap) /\
  (pos <= size s ->
     exists r, substr s pos count = Ok r /\
               NUL_terminated r /\
               size r = Z.min count (size s - pos) /\
               view r = take (Z.to_nat (Z.min count (size s - pos)))
                             (drop (Z.to_nat pos) (view s))).
Proof.
  intros Hinv Hpos Hcount.
  destruct (NUL_terminated_terminated s Hinv) as [payload Hd].
  destruct s as [d]. cbn [data_] in Hd. subst d.
  unfold substr. rewrite terminated_size. cbn [data_]. rewrite view_terminated.
  split; intros Hcmp.
  - destruct (Z.ltb_spec (Z.of_nat (length payload)) pos); [reflexivity | lia].
  - destruct (Z.ltb_spec (Z.of_nat (length payload)) pos); [lia |].
    set (n := Z.min count (Z.of_nat (length payload) - pos)).
    assert (Hsub : take (Z.to_nat n) (drop (Z.to_nat pos) (payload ++ [0]))
                   = take (Z.to_nat n) (drop (Z.to_nat pos) payload)).
    { rewrite drop_app_le by lia.
      rewrite take_app_le by (rewrite length_drop; lia).
      reflexivity. }
    rewrite Hsub. eexists. split; [reflexivity |].
    split; [apply terminated_NUL_terminated, terminated_of_StringView |].
    split.
    + rewrite size_of_StringView, length_take, length_drop. lia.
    + apply view_of_StringView.
Qed.

Lemma substr_spec_witness :
  substr (UTF8String_of_StringView [0x61; 0x62; 0x63; 0x64]) 5 1 = Trap /\
  exists r, substr (UTF8String_of_StringView [0x61; 0x62; 0x63; 0x64]) 1 7 = Ok r /\
            view r = [0x62; 0x63; 0x64].
Proof.
  pose proof (substr_spec (UTF8String_of_StringView [0x61; 0x62; 0x63; 0x64]) 5 1
                (terminated_NUL_terminated _ (terminated_of_StringView _))
                ltac:(lia) ltac:(lia)) as [Htrap _].
  pose proof (substr_spec (UTF8String_of_StringView [0x61; 0x62; 0x63; 0x64]) 1 7
                (terminated_NUL_terminated _ (terminated_of_StringView _))
                ltac:(lia) ltac:(lia)) as [_ Hok].
  split.
  - apply Htrap. vm_compute. reflexivity.
  - destruct Hok as (r & Hr & _ & _ & Hv); [vm_compute; discriminate |].
    exists r. split; [exact Hr | exact Hv].
Defined.

(** ** What the operations do to the characters *)

Lemma NUL_terminated_data (s : UTF8String) :
  NUL_terminated s ->
  data_ s = view s ++ [0] /\ size s = Z.of_nat (length (view s)).
Proof.
  intros Hs. destruct (NUL_terminated_terminated s Hs) as [payload Hp].
  destruct s as [d]. cbn [data_] in Hp. subst d.
  rewrite view_terminated, terminated_size. split; reflexivity.
Qed.

Lemma pop_back_push (payload : list Z) (c : Z) : pop_back (payload ++ [c]) = payload.
Proof. unfold pop_back. apply removelast_last. Qed.

Lemma append_range (s : UTF8String) (range : list Z) :
  NUL_terminated s ->
  view (append s range) = view s ++ range /\
  size (append s range) = size s + Z.of_nat (length range).
Proof.
  intros Hs. destruct (NUL_terminated_data s Hs) as [Hd Hsize].
  unfold append. destruct (Z.ltb_spec 0 (Z.of_nat (length range))) as [Hpos | Hzero].
  - rewrite Hd, pop_back_push. unfold push_back.
    rewrite view_terminated, terminated_size, length_app.
    split; [reflexivity | lia].
  - assert (range = []) as -> by (destruct range; [reflexivity | cbn in Hzero; lia]).
    rewrite app_nil_r. cbn. split; [reflexivity | lia].
Qed.

(** X10.  On a string that satisfies the buffer invariant, [append(first,
    last)] appends exactly the characters of the range: the characters
    afterwards are the old ones followed by the range, the size grows by the
    length of the range, and the invariant is kept. *)
Theorem append_spec (s : UTF8String) (range : list Z) :
  NUL_terminated s ->
  view (append s range) = view s ++ range /\
  size (append s range) = size s + Z.of_nat (length range) /\
  NUL_terminated (append s range).
Proof.
  intros Hs. destruct (append_range s range Hs) as [Hv Hsz].
  split; [exact Hv |]. split; [exact Hsz |].
  destruct (NUL_terminated_data s Hs) as [Hd _].
  unfold append. destruct (0 <? Z.of_nat (length range)); [| exact Hs].
  apply terminated_NUL_terminated. eexists. reflexivity.
Qed.

Lemma append_spec_witness :
  view (append (UTF8String_of_StringView [0x61; 0x62]) [0x63]) =
    view (UTF8String_of_StringView [0x61; 0x62]) ++ [0x63] /\
  size (append (UTF8String_of_StringView [0x61; 0x62]) [0x63]) =
    size (UTF8String_of_StringView [0x61; 0x62]) + Z.of_nat (length [0x63]) /\
  NUL_terminated (append (UTF8String_of_StringView [0x61; 0x62]) [0x63]).
Proof.
  apply (append_spec (UTF8String_of_StringView [0x61; 0x62]) [0x63]).
  apply terminated_NUL_terminated, terminated_of_StringView.
Defined.

Lemma resize_chars (s : UTF8String) (n ch : Z) :
  NUL_terminated s -> 0 <= n ->
  size (resize s n ch) = n /\
  view (resize s n ch) =
    take (Z.to_nat n) (view s) ++ replicate (Z.to_nat (n - size s)) ch.
Proof.
  intros Hs Hn. destruct (NUL_terminated_data s Hs) as [Hd Hsize].
  unfold resize. destruct (Z.eqb_spec n (size s)) as [-> | Hne]; cbn [negb].
  - split; [reflexivity |].
    rewrite Z.sub_diag. cbn [Z.to_nat replicate]. rewrite app_nil_r.
    rewrite take_ge by lia. reflexivity.
  - rewrite Hd, pop_back_push. unfold push_back, vec_resize.
    rewrite view_terminated, terminated_size, length_app, length_take, length_replicate.
    split; [lia |].
    do 2 f_equal. lia.
Qed.

(** X11.  On a string that satisfies the buffer invariant, [resize(n, ch)]
    yields a string of size [n] whose characters are the first [n] old ones,
    followed by [ch] for each position beyond the old size, and the invariant
    is kept. *)
Theorem resize_spec (s : UTF8String) (n ch : Z) :
  NUL_terminated s -> 0 <= n ->
  size (resize s n ch) = n /\
  view (resize s n ch) =
    take (Z.to_nat n) (view s) ++ replicate (Z.to_nat (n - size s)) ch /\
  NUL_terminated (resize s n ch).
Proof.
  intros Hs Hn. destruct (resize_chars s n ch Hs Hn) as [Hsz Hv].
  split; [exact Hsz |]. split; [exact Hv |].
  apply terminated_NUL_terminated, terminated_resize, NUL_terminated_terminated, Hs.
Qed.

Lemma resize_spec_witness :
  size (resize (UTF8String_of_StringView [0x61; 0x62]) 4 0x78) = 4 /\
  view (resize (UTF8String_of_StringView [0x61; 0x62]) 4 0x78) =
    take (Z.to_nat 4) (view (UTF8String_of_StringView [0x61; 0x62])) ++
    replicate (Z.to_nat (4 - size (UTF8String_of_StringView [0x61; 0x62]))) 0x78 /\
  NUL_terminated (resize (UTF8String_of_StringView [0x61; 0x62]) 4 0x78).
Proof.
  apply (resize_spec (UTF8String_of_StringView [0x61; 0x62]) 4 0x78).
  - apply terminated_NUL_terminated, terminated_of_StringView.
  - lia.
Defined.

(** X12.  [append(count, ch)] computes the new size in [size_type]: when
    [size() + count] is below [2^64] the string gains [count] copies of [ch];
    when the sum wraps, the string is cut down to its first
    [size() + count - 2^64] characters (so [append(size_type(-1), ch)] removes
    the last character of a non-empty string). *)
Theorem append_fill_spec (s : UTF8String) (count ch : Z) :
  NUL_terminated s -> 0 <= count < 2^64 -> size s < 2^64 ->
  (size s + count < 2^64 ->
     view (append_fill s count ch) = view s ++ replicate (Z.to_nat count) ch) /\
  (2^64 <= size s + count ->
     view (append_fill s count ch) = take (Z.to_nat (size s + count - 2^64)) (view s)).
Proof.
  intros Hs Hc Hlt. destruct (NUL_terminated_data s Hs) as [Hd Hsize].
  unfold append_fill, to_size_t.
  split; intros Hsum.
  - rewrite Z.mod_small by lia.
    destruct (resize_chars s (size s + count) ch Hs ltac:(lia)) as [_ ->].
    rewrite take_ge by lia. do 2 f_equal. lia.
  - assert (Hmod : (size s + count) mod 2^64 = size s + count - 2^64).
    { symmetry. apply (Z.mod_unique (size s + count) (2^64) 1); lia. }
    rewrite Hmod.
    destruct (resize_chars s (size s + count - 2^64) ch Hs ltac:(lia)) as [_ ->].
    replace (Z.to_nat (size s + count - 2^64 - size s)) with 0%nat by lia.
    cbn [replicate]. apply app_nil_r.
Qed.

Lemma append_fill_spec_witness :
  view (append_fill (UTF8String_of_StringView [0x61; 0x62]) npos 0x78) = [0x61].
Proof.
  refine (proj2 (append_fill_spec (UTF8String_of_StringView [0x61; 0x62]) npos 0x78 _ _ _) _).
  - apply terminated_NUL_terminated, terminated_of_StringView.
  - vm_compute. split; [discriminate | reflexivity].
  - vm_compute. reflexivity.
  - vm_compute. discriminate.
Defined.

(** X13.  [operator += (const WStringView&)] appends the whole converted
    array, its terminator included: afterwards the characters are the old
    ones, then the UTF-8 bytes of the wide string, then a NUL that counts as a
    character, so the size grows by one more than the number of bytes. *)
Theorem append_wide_spec (s : UTF8String) (rhs : list Z) :
  NUL_terminated s ->
  view (append_wide s rhs) = view s ++ view (UTF8String_of_WStringView rhs) ++ [0] /\
  size (append_wide s rhs) = size s + size (UTF8String_of_WStringView rhs) + 1.
Proof.
  intros Hs. unfold append_wide.
  destruct (append_range s (ConvertWStringViewToUTF8CharArray rhs) Hs) as (Hv & Hsz).
  pose proof (NUL_terminated_data (UTF8String_of_WStringView rhs)
                (terminated_NUL_terminated _ (terminated_of_WStringView rhs))) as [Hd Hsize].
  cbn [UTF8String_of_WStringView data_] in Hd.
  rewrite Hv, Hsz. split.
  - rewrite Hd at 1. reflexivity.
  - rewrite Hd at 1. rewrite length_app, Hsize. cbn [length]. lia.
Qed.

Lemma append_wide_spec_witness :
  view (append_wide (UTF8String_of_StringView [0x61]) [0x62]) =
    view (UTF8String_of_StringView [0x61]) ++ view (UTF8String_of_WStringView [0x62]) ++ [0] /\
  size (append_wide (UTF8String_of_StringView [0x61]) [0x62]) =
    size (UTF8String_of_StringView [0x61]) + size (UTF8String_of_WStringView [0x62]) + 1.
Proof.
  apply (append_wide_spec (UTF8String_of_StringView [0x61]) [0x62]).
  apply terminated_NUL_terminated, terminated_of_StringView.
Defined.

(** X14.  [substr] with a count that is not below the size (as the default
    [npos]) and position 0 copies the string, and at position [size()] it
    yields the empty string, whatever the count. *)
Theorem substr_whole_and_end (s : UTF8String) (count : Z) :
  NUL_terminated s -> 0 <= count ->
  (size s <= count -> substr s 0 count = Ok s) /\
  substr s (size s) count = Ok UTF8String_default.
Proof.
  intros Hs Hc. destruct (NUL_terminated_data s Hs) as [Hd Hsize].
  unfold substr. split.
  - intros Hle. destruct (Z.ltb_spec (size s) 0); [lia |].
    rewrite Z.min_r by lia. rewrite Z.sub_0_r.
    change (Z.to_nat 0) with 0%nat. rewrite drop_0.
    rewrite Hd at 1. rewrite Hsize, Nat2Z.id, take_app_length.
    unfold UTF8String_of_StringView, ConvertStringViewToCharArray, push_back.
    cbn [app]. rewrite <- Hd. destruct s. reflexivity.
  - destruct (Z.ltb_spec (size s) (size s)); [lia |].
    rewrite Z.sub_diag, Z.min_r by lia. reflexivity.
Qed.

Lemma substr_whole_and_end_witness :
  substr (UTF8String_of_StringView [0x61; 0x62]) 0 npos
  = Ok (UTF8String_of_StringView [0x61; 0x62]).
Proof.
  refine (proj1 (substr_whole_and_end (UTF8String_of_StringView [0x61; 0x62]) npos _ _) _).
  - apply terminated_NUL_terminated, terminated_of_StringView.
  - vm_compute. discriminate.
  - vm_compute. discriminate.
Defined.

(** ** More on encoding and decoding *)

Lemma AppendUTF8Character_length (str : list Z) (c : Z) :
  Z.of_nat (length (AppendUTF8Character str c))
  = Z.of_nat (length str) + GetUTF8CharCount c /\
  1 <= GetUTF8CharCount c <= 4.
Proof.
  unfold AppendUTF8Character, GetUTF8CharCount, push_back.
  repeat match goal with |- context [if ?b then _ else _] => destruct b end;
    rewrite ?length_app; cbn [length]; lia.
Qed.

Lemma GetUTF8CharCount_view_length (s str : list Z) (acc : Z) :
  acc = Z.of_nat (length str) ->
  acc + 4 * Z.of_nat (length s) < 2^64 ->
  fold_left (fun len c => to_size_t (len + GetUTF8CharCount c)) s acc
  = Z.of_nat (length (fold_left AppendUTF8Character s str)) /\
  acc + Z.of_nat (length s)
  <= Z.of_nat (length (fold_left AppendUTF8Character s str))
  <= acc + 4 * Z.of_nat (length s).
Proof.
  revert str acc. induction s as [| c s IH]; intros str acc Hacc Hfit; cbn [fold_left].
  - cbn [length] in *. lia.
  - destruct (AppendUTF8Character_length str c) as [Hlen Hcount].
    cbn [length] in Hfit.
    assert (Hstep : to_size_t (acc + GetUTF8CharCount c)
                    = Z.of_nat (length (AppendUTF8Character str c))).
    { unfold to_size_t. rewrite Z.mod_small by lia. lia. }
    rewrite Hstep.
    destruct (IH (AppendUTF8Character str c) _ eq_refl ltac:(lia)) as [Heq Hb].
    split; [exact Heq |]. cbn [length]. lia.
Qed.

(** X15.  The number of bytes that the wide-string constructor stores is
    what [GetUTF8CharCount] announces (the reserved capacity is exact): the
    size of the string is [GetUTF8CharCount(s)], between one and four bytes
    for each wide character. *)
Theorem encoded_size (s : list Z) :
  4 * Z.of_nat (length s) < 2^64 ->
  size (UTF8String_of_WStringView s) = GetUTF8CharCount_view s /\
  Z.of_nat (length s) <= size (UTF8String_of_WStringView s) <= 4 * Z.of_nat (length s).
Proof.
  intros Hfit.
  unfold UTF8String_of_WStringView, ConvertWStringViewToUTF8CharArray, push_back.
  rewrite terminated_size. unfold GetUTF8CharCount_view.
  destruct (GetUTF8CharCount_view_length s [] 0 eq_refl ltac:(lia)) as [Heq Hb].
  split; [symmetry; exact Heq | lia].
Qed.

Lemma encoded_size_witness :
  size (UTF8String_of_WStringView [0x48; 0xE9; 0x20AC; 0x1F600])
  = GetUTF8CharCount_view [0x48; 0xE9; 0x20AC; 0x1F600] /\
  Z.of_nat (length [0x48; 0xE9; 0x20AC; 0x1F600])
  <= size (UTF8String_of_WStringView [0x48; 0xE9; 0x20AC; 0x1F600])
  <= 4 * Z.of_nat (length [0x48; 0xE9; 0x20AC; 0x1F600]).
Proof.
  apply (encoded_size [0x48; 0xE9; 0x20AC; 0x1F600]). vm_compute. reflexivity.
Defined.

Lemma encode_ascii_char (c : Z) : 0 <= c < 0x80 -> AppendUTF8Character [] c = [c].
Proof.
  intros Hc. unfold AppendUTF8Character.
  destruct (Z.ltb_spec c 0x80); [| lia].
  unfold push_back, static_cast_char. rewrite Z.mod_small by lia. reflexivity.
Qed.

Lemma ConvertToUTF16_loop_ascii (sgn : bool) (bytes acc : list Z) :
  Forall (fun b => 0 <= b < 0x80) bytes ->
  ConvertToUTF16_loop sgn bytes acc = Ok (acc ++ bytes).
Proof.
  intros Hb. revert acc. induction Hb as [| b bytes Hb _ IH]; intros acc.
  - cbn. rewrite app_nil_r. reflexivity.
  - cbn [ConvertToUTF16_loop]. destruct (ascii_facts b Hb) as [_ ->].
    unfold push_back. rewrite IH, <- app_assoc. reflexivity.
Qed.

(** X16.  On 7-bit characters nothing is converted: the wide-string
    constructor stores an ASCII wide string as the narrow constructor stores
    the same characters, and [to_utf16] of a string of ASCII bytes yields
    these bytes followed by the terminator. *)
Theorem ascii_is_unchanged (char_is_signed : bool) (s : list Z) :
  Forall (fun c => 0 <= c < 0x80) s ->
  UTF8String_of_WStringView s = UTF8String_of_StringView s /\
  to_utf16 char_is_signed (UTF8String_of_StringView s) = Ok (s ++ [0]).
Proof.
  intros Hs. split.
  - unfold UTF8String_of_WStringView, UTF8String_of_StringView,
      ConvertWStringViewToUTF8CharArray, ConvertStringViewToCharArray.
    do 2 f_equal. rewrite fold_AppendUTF8Character. cbn [app].
    induction Hs as [| c s Hc _ IH]; [reflexivity |].
    cbn [flat_map]. rewrite encode_ascii_char by exact Hc. rewrite IH. reflexivity.
  - unfold to_utf16, ConvertToUTF16WCharArray.
    rewrite view_of_StringView, ConvertToUTF16_loop_ascii by exact Hs. reflexivity.
Qed.

Lemma ascii_is_unchanged_witness :
  UTF8String_of_WStringView [0x4C; 0x47] = UTF8String_of_StringView [0x4C; 0x47] /\
  to_utf16 true (UTF8String_of_StringView [0x4C; 0x47]) = Ok ([0x4C; 0x47] ++ [0]).
Proof.
  apply (ascii_is_unchanged true [0x4C; 0x47]). repeat constructor; lia.
Defined.

Lemma lead4_facts (w : Z) :
  0 <= w < 8 ->
  let b := static_cast_char (Z.lor 0xF0 w) in
  (Z.land b 0x80 =? 0x00) = false /\ (Z.land b 0xE0 =? 0xC0) = false /\
  (Z.land b 0xF0 =? 0xE0) = false.
Proof.
  intros Hw.
  assert (Hall : forallb lead4_ok (seqZ 0 8) = true) by (vm_compute; reflexivity).
  pose proof (forallb_seqZ _ _ _ Hall w ltac:(lia)) as Hok.
  unfold lead4_ok in Hok. cbv zeta in *.
  apply andb_prop in Hok as [Hok E3]. apply andb_prop in Hok as [E1 E2].
  apply negb_true_iff in E1, E2, E3. repeat split; assumption.
Qed.

Lemma decode_four_bytes (sgn : bool) (code : Z) (rest acc : list Z) :
  0xFFFF <= code ->
  ConvertToUTF16_loop sgn (AppendUTF8Character [] code ++ rest) acc = Trap.
Proof.
  intros Hc. unfold AppendUTF8Character.
  destruct (Z.ltb_spec code 0x80); [lia |].
  destruct (Z.ltb_spec code 0x07FF); [lia |].
  destruct (Z.ltb_spec code 0xFFFF); [lia |].
  unfold push_back. cbn [app ConvertToUTF16_loop].
  destruct (lead4_facts (Z.land (Z.shiftr code 18) 0x07) (land_ones_bounds _ 3 ltac:(lia)))
    as (E1 & E2 & E3).
  rewrite E1, E2, E3. reflexivity.
Qed.

Lemma decode_any (sgn : bool) (code : Z) (rest acc : list Z) :
  0 <= code < 0xFFFF ->
  exists code',
    ConvertToUTF16_loop sgn (AppendUTF8Character [] code ++ rest) acc
    = ConvertToUTF16_loop sgn rest (acc ++ [code']).
Proof.
  intros Hc.
  destruct (Z.lt_ge_cases code 0x80); [| destruct (Z.lt_ge_cases code 0x07FF)].
  - exists code. apply decode_one_byte. lia.
  - destruct (decode_two_bytes sgn code rest acc ltac:(lia)) as (code' & _ & Hd).
    exists code'. exact Hd.
  - exists code. apply decode_three_bytes. lia.
Qed.

(** X17.  A wide string with a code point from U+FFFF on, after code points
    below U+FFFF only, cannot be read back: the constructor stores that code
    point with a lead byte F0..F7, and [to_utf16] runs into the trap
    there. *)
Theorem to_utf16_traps_from_FFFF (char_is_signed : bool) (before after : list Z) (code : Z) :
  Forall (fun c => 0 <= c < 0xFFFF) before ->
  0xFFFF <= code ->
  to_utf16 char_is_signed (UTF8String_of_WStringView (before ++ code :: after)) = Trap.
Proof.
  intros Hb Hc. unfold to_utf16, ConvertToUTF16WCharArray.
  rewrite view_of_WStringView.
  assert (Hloop : forall acc,
             ConvertToUTF16_loop char_is_signed
               (flat_map (AppendUTF8Character []) (before ++ code :: after)) acc = Trap).
  { induction Hb as [| c before Hc0 _ IH]; intros acc.
    - cbn [app flat_map]. apply decode_four_bytes. exact Hc.
    - cbn [app flat_map].
      destruct (decode_any char_is_signed c
                  (flat_map (AppendUTF8Character []) (before ++ code :: after)) acc Hc0)
        as (c' & ->).
      apply IH. }
  rewrite Hloop. reflexivity.
Qed.

Lemma to_utf16_traps_from_FFFF_witness :
  to_utf16 true (UTF8String_of_WStringView ([0x48; 0xE9] ++ 0x1F600 :: [0x21])) = Trap.
Proof.
  apply (to_utf16_traps_from_FFFF true [0x48; 0xE9] [0x21] 0x1F600);
    [repeat constructor; lia | lia].
Defined.

Lemma lor_bound (a b : Z) : 0 <= a -> 0 <= b -> 0 <= Z.lor a b <= a + b.
Proof.
  intros Ha Hb. pose proof (Z.add_lor_land a b).
  assert (0 <= Z.land a b) by (apply Z.land_nonneg; lia).
  assert (0 <= Z.lor a b) by (apply Z.lor_nonneg; lia).
  lia.
Qed.

Lemma ConvertToUTF16_loop_bounds (sgn : bool) (bytes acc out : list Z) :
  Forall (fun b => 0 <= b < 256) bytes ->
  Forall (fun u => 0 <= u < 2^16) acc ->
  ConvertToUTF16_loop sgn bytes acc = Ok out ->
  Forall (fun u => 0 <= u < 2^16) out /\
  (length out <= length acc + length bytes)%nat.
Proof.
  assert (Hsnoc : forall (l : list Z) v,
             Forall (fun u => 0 <= u < 2^16) l -> 0 <= v < 2^16 ->
             Forall (fun u => 0 <= u < 2^16) (l ++ [v])).
  { intros l v Hl Hv. apply Forall_app. split; [exact Hl |].
    apply Forall_singleton. exact Hv. }
  revert acc. induction bytes as [bytes IH] using (induction_ltof1 _ (@length Z)).
  unfold ltof in IH. intros acc Hbytes Hacc.
  destruct bytes as [| b0 it1]; cbn [ConvertToUTF16_loop].
  - intros [= <-]. split; [exact Hacc | lia].
  - unfold push_back.
    apply Forall_cons in Hbytes as [Hb0 Hit1].
    destruct (Z.land b0 128 =? 0).
    { intros Hl.
      assert (Hv : 0 <= b0 < 2^16) by (change (2^16) with 65536; lia).
      destruct (IH it1 ltac:(cbn [length]; lia) (acc ++ [b0]) Hit1
                  (Hsnoc _ _ Hacc Hv) Hl) as [Hout Hlen].
      split; [exact Hout |]. rewrite length_app in Hlen. cbn [length] in *. lia. }
    destruct (Z.land b0 224 =? 192).
    { destruct it1 as [| b1 it2]; [discriminate |].
      apply Forall_cons in Hit1 as [_ Hit2].
      pose proof (land_ones_bounds b0 5 ltac:(lia)) as H0.
      pose proof (land_ones_bounds (char_to_int sgn b1) 6 ltac:(lia)) as H1.
      change (Z.ones 5) with 31 in H0. change (Z.ones 6) with 63 in H1.
      change (2^5) with 32 in H0. change (2^6) with 64 in H1.
      pose proof (lor_bound (Z.shiftl (Z.land b0 31) 5) (Z.land (char_to_int sgn b1) 63)) as Hlor.
      rewrite Z.shiftl_mul_pow2 in Hlor by lia. change (2^5) with 32 in Hlor.
      intros Hl. rewrite Z.shiftl_mul_pow2 in Hl by lia. change (2^5) with 32 in Hl.
      match type of Hl with
      | ConvertToUTF16_loop _ _ (_ ++ [?v]) = _ =>
        assert (Hv : 0 <= v < 2^16) by (change (2^16) with 65536; lia)
      end.
      destruct (IH it2 ltac:(cbn [length]; lia) _ Hit2 (Hsnoc _ _ Hacc Hv) Hl)
        as [Hout Hlen].
      split; [exact Hout |]. rewrite length_app in Hlen. cbn [length] in *. lia. }
    destruct (Z.land b0 240 =? 224); [| discriminate].
    destruct it1 as [| b1 [| b2 it3]]; try discriminate.
    apply Forall_cons in Hit1 as [_ Hit2]. apply Forall_cons in Hit2 as [_ Hit3].
    pose proof (land_ones_bounds b0 4 ltac:(lia)) as H0.
    pose proof (land_ones_bounds (char_to_int sgn b1) 6 ltac:(lia)) as H1.
    pose proof (land_ones_bounds (char_to_int sgn b2) 6 ltac:(lia)) as H2.
    change (Z.ones 4) with 15 in H0. change (Z.ones 6) with 63 in H1, H2.
    change (2^4) with 16 in H0. change (2^6) with 64 in H1, H2.
    pose proof (lor_bound (Z.shiftl (Z.land b0 15) 12)
                  (Z.shiftl (Z.land (char_to_int sgn b1) 63) 6)) as Hlor1.
    pose proof (lor_bound (Z.lor (Z.shiftl (Z.land b0 15) 12)
                                 (Z.shiftl (Z.land (char_to_int sgn b1) 63) 6))
                  (Z.land (char_to_int sgn b2) 63)) as Hlor2.
    rewrite !Z.shiftl_mul_pow2 in Hlor1, Hlor2 by lia.
    change (2^12) with 4096 in Hlor1, Hlor2. change (2^6) with 64 in Hlor1, Hlor2.
    intros Hl. rewrite !Z.shiftl_mul_pow2 in Hl by lia.
    change (2^12) with 4096 in Hl. change (2^6) with 64 in Hl.
    match type of Hl with
    | ConvertToUTF16_loop _ _ (_ ++ [?v]) = _ =>
      assert (Hv : 0 <= v < 2^16) by (change (2^16) with 65536; lia)
    end.
    destruct (IH it3 ltac:(cbn [length]; lia) _ Hit3 (Hsnoc _ _ Hacc Hv) Hl)
      as [Hout Hlen].
    split; [exact Hout |]. rewrite length_app in Hlen. cbn [length] in *. lia.
Qed.

(** X18.  Whatever bytes a string holds, when [to_utf16] returns, the result
    ends with the terminator, every element of it fits in 16 bits, and it has
    at most one element more than the string has bytes. *)
Theorem to_utf16_result_shape (char_is_signed : bool) (s : UTF8String) (out : list Z) :
  Forall (fun b => 0 <= b < 256) (view s) ->
  to_utf16 char_is_signed s = Ok out ->
  last out = Some 0 /\
  Forall (fun u => 0 <= u < 2^16) out /\
  (length out <= length (view s) + 1)%nat.
Proof.
  intros Hb. unfold to_utf16, ConvertToUTF16WCharArray.
  destruct (ConvertToUTF16_loop char_is_signed (view s) []) as [utf16 | |] eqn:Hl;
    cbn [result_map]; try discriminate.
  intros [= <-].
  destruct (ConvertToUTF16_loop_bounds _ _ _ _ Hb (Forall_nil_2 _) Hl) as [Hout Hlen].
  unfold push_back. split; [apply last_snoc |]. split.
  - apply Forall_app. split; [exact Hout | repeat constructor; lia].
  - rewrite length_app. cbn [length] in *. lia.
Qed.

Lemma to_utf16_result_shape_witness :
  let s := mkUTF8String [0xE2; 0x82; 0xAC; 0] in
  let out := [0x20AC; 0] in
  last out = Some 0 /\
  Forall (fun u => 0 <= u < 2^16) out /\
  (length out <= length (view s) + 1)%nat.
Proof.
  cbv zeta.
  apply (to_utf16_result_shape false (mkUTF8String [0xE2; 0x82; 0xAC; 0]) [0x20AC; 0]).
  - vm_compute. repeat constructor; discriminate.
  - reflexivity.
Defined.

(** ** Assignment by move *)

(** X19.  A move assignment between two different strings leaves the target
    with the buffer of the source and the source empty; a move assignment of
    a string to itself leaves it empty. *)
Theorem move_assignment (st : store) (i j : nat) (a b : UTF8String) :
  st !! i = Some a -> st !! j = Some b ->
  (i <> j ->
     step st (AssignMove i j) !! i = Some (mkUTF8String (data_ b)) /\
     step st (AssignMove i j) !! j = Some UTF8String_default) /\
  (i = j -> step st (AssignMove i j) !! i = Some UTF8String_default).
Proof.
  intros Hi Hj. cbv beta iota delta [step]. rewrite Hj. unfold store in *.
  pose proof (lookup_lt_Some _ _ _ Hi) as Hil.
  pose proof (lookup_lt_Some _ _ _ Hj) as Hjl.
  destruct (decide (i < length st)%nat); [| lia].
  split.
  - intros Hne. split.
    + rewrite list_lookup_alter_ne by congruence.
      rewrite list_lookup_alter_eq, Hi. reflexivity.
    + rewrite list_lookup_alter_eq, list_lookup_alter_ne by congruence.
      rewrite Hj. reflexivity.
  - intros <-. rewrite !list_lookup_alter_eq, Hi. reflexivity.
Qed.

Lemma move_assignment_witness :
  step [UTF8String_of_StringView [0x61]; UTF8String_of_StringView [0x62]] (AssignMove 0 1)
  !! 0%nat = Some (mkUTF8String (data_ (UTF8String_of_StringView [0x62]))) /\
  step [UTF8String_of_StringView [0x61]; UTF8String_of_StringView [0x62]] (AssignMove 0 1)
  !! 1%nat = Some UTF8String_default.
Proof.
  refine (proj1 (move_assignment
            [UTF8String_of_StringView [0x61]; UTF8String_of_StringView [0x62]]
            0 1 _ _ eq_refl eq_refl) _).
  discriminate.
Defined.

End UTF8Facts.

Module DisplaysFacts.
Import Displays.

(** ** The order of display modes *)

#[global] Instance mode_le_total : Total mode_le.
Proof. intros a b. unfold mode_le. lia. Qed.

#[global] Instance mode_le_trans : Transitive mode_le.
Proof. intros a b c. unfold mode_le. lia. Qed.

Lemma StronglySorted_remove_dups (l : list DisplayMode) :
  StronglySorted mode_le l -> StronglySorted mode_le (remove_dups l).
Proof.
  induction 1 as [| a l Hl IH Ha]; cbn [remove_dups].
  - constructor.
  - destruct (decide_rel elem_of a l); [exact IH |].
    constructor; [exact IH |].
    apply Forall_forall. intros b Hb.
    rewrite elem_of_remove_dups in Hb.
    exact (proj1 (Forall_forall _ _) Ha b Hb).
Qed.

Lemma FinalizeDisplayModes_sorted (l : list DisplayMode) :
  StronglySorted mode_le (FinalizeDisplayModes l).
Proof.
  apply StronglySorted_remove_dups, Sorted_StronglySorted.
  - apply _.
  - apply Sorted_merge_sort. apply _.
Qed.

Lemma FinalizeDisplayModes_NoDup (l : list DisplayMode) :
  NoDup (FinalizeDisplayModes l).
Proof. apply NoDup_remove_dups. Qed.

Lemma FinalizeDisplayModes_elem_of (l : list DisplayMode) (m : DisplayMode) :
  m ∈ FinalizeDisplayModes l <-> m ∈ l.
Proof.
  unfold FinalizeDisplayModes.
  rewrite elem_of_remove_dups, merge_sort_Permutation. reflexivity.
Qed.

Example GetSupportedDisplayModes_linux :
  GetSupportedDisplayModes
    (LinuxDisplay
       (mkXScreen [(mkXRRScreenSize 1024 768, [75; 60]);
                   (mkXRRScreenSize 800 600, [60; 60])] 0 true 0 []))
  = [mkDisplayMode (mkExtent2D 800 600) 60;
     mkDisplayMode (mkExtent2D 1024 768) 60;
     mkDisplayMode (mkExtent2D 1024 768) 75].
Proof. vm_compute. reflexivity. Qed.

(** C7.  For every display the list of supported display modes is sorted
    ascending by the pair (width times height of the resolution, refresh
    rate), every entry being in that order with every later one, and no
    entry occurs twice. *)
Theorem GetSupportedDisplayModes_sorted_nodup (d : Display) :
  StronglySorted mode_le (GetSupportedDisplayModes d) /\
  NoDup (GetSupportedDisplayModes d).
Proof.
  destruct d as [scr | app]; cbn [GetSupportedDisplayModes].
  - split; [apply FinalizeDisplayModes_sorted | apply FinalizeDisplayModes_NoDup].
  - unfold AndroidDisplay_GetSupportedDisplayModes. cbn. split.
    + repeat constructor.
    + apply NoDup_singleton.
Qed.

(** ** [SetDisplayMode] *)

Lemma SetDisplayMode_loop_no_match (scr : XScreen) (mode : DisplayMode)
    (i : nat) (sizes : list XRRScreenSize) :
  (forall size, size ∈ sizes -> resolution_matches mode size = false) ->
  SetDisplayMode_loop scr mode i sizes = (false, scr).
Proof.
  revert i. induction sizes as [| size rest IH]; intros i Hno; cbn [SetDisplayMode_loop].
  - reflexivity.
  - rewrite (Hno size) by (apply elem_of_cons; left; reflexivity).
    apply IH. intros s Hs. apply Hno, elem_of_cons. right. exact Hs.
Qed.

Lemma SetDisplayMode_loop_request (scr : XScreen) (mode : DisplayMode)
    (i : nat) (sizes : list XRRScreenSize) (r : bool) (scr' : XScreen) :
  SetDisplayMode_loop scr mode i sizes = (r, scr') ->
  (r = false /\ scr' = scr) \/
  (exists k size, sizes !! k = Some size /\
                  resolution_matches mode size = true /\
                  scr_requests scr' = scr_requests scr ++ [(i + k)%nat]).
Proof.
  revert i. induction sizes as [| size rest IH]; intros i; cbn [SetDisplayMode_loop].
  - intros [= <- <-]. left. split; reflexivity.
  - destruct (resolution_matches mode size) eqn:Hm.
    + destruct (scr_info scr).
      * cbn. intros [= <- <-]. right. exists 0%nat, size.
        split; [reflexivity |]. split; [exact Hm |].
        cbn. rewrite Nat.add_0_r. reflexivity.
      * intros Hl. destruct (IH _ Hl) as [Hsame | (k & s & Hk & Hs & Hreq)];
          [left; exact Hsame |].
        right. exists (S k), s. split; [exact Hk |]. split; [exact Hs |].
        rewrite Hreq. do 2 f_equal. lia.
    + intros Hl. destruct (IH _ Hl) as [Hsame | (k & s & Hk & Hs & Hreq)];
        [left; exact Hsame |].
      right. exists (S k), s. split; [exact Hk |]. split; [exact Hs |].
      rewrite Hreq. do 2 f_equal. lia.
Qed.

(** C8, at an input where the code departs from it.  On a screen that
    lists 800x600 and 1024x768, each at 60 Hz only, the mode 1024x768
    at 75 Hz is not among the supported modes, yet [SetDisplayMode] sends the
    request for size index 1.  When the server answers [RRSetConfigSuccess]
    the screen has switched to that size, and the result is false; when the
    server answers with another status the screen stays at its size, and the
    result is true. *)
Lemma SetDisplayMode_unsupported_rate_applied :
  let sizes := [(mkXRRScreenSize 800 600, [60]); (mkXRRScreenSize 1024 768, [60])] in
  let mode := mkDisplayMode (mkExtent2D 1024 768) 75 in
  (mode ∉ GetSupportedDisplayModes (LinuxDisplay (mkXScreen sizes 0 true 0 []))) /\
  SetDisplayMode (LinuxDisplay (mkXScreen sizes 0 true 0 [])) mode =
    (false, LinuxDisplay (mkXScreen sizes 1 true 0 [1%nat])) /\
  SetDisplayMode (LinuxDisplay (mkXScreen sizes 0 true 0 [])) mode <>
    (false, LinuxDisplay (mkXScreen sizes 0 true 0 [])) /\
  (mode ∉ GetSupportedDisplayModes (LinuxDisplay (mkXScreen sizes 0 true 3 []))) /\
  SetDisplayMode (LinuxDisplay (mkXScreen sizes 0 true 3 [])) mode =
    (true, LinuxDisplay (mkXScreen sizes 0 true 3 [1%nat])).
Proof.
  cbv zeta. repeat split.
  - apply (bool_decide_unpack _). vm_compute. exact I.
  - vm_compute. discriminate.
  - apply (bool_decide_unpack _). vm_compute. exact I.
Qed.

(** What [SetDisplayMode] does look at: it returns false and leaves the
    display as it was whenever the requested resolution equals none of the
    screen sizes that the display lists (on Android, which lists none,
    always); and whenever it returns true or the display is not as it was,
    the display is a Linux display that received exactly one
    set-configuration request, for the index of a listed screen size equal to
    the requested resolution.  The refresh rate of the argument is not looked
    at. *)
Theorem SetDisplayMode_resolution_only (d d' : Display) (mode : DisplayMode) (r : bool) :
  SetDisplayMode d mode = (r, d') ->
  ((forall scr size, d = LinuxDisplay scr -> size ∈ XRRSizes scr ->
                     resolution_matches mode size = false) ->
   r = false /\ d' = d) /\
  (r = true \/ d' <> d ->
   exists scr scr' i size,
     d = LinuxDisplay scr /\ d' = LinuxDisplay scr' /\
     XRRSizes scr !! i = Some size /\
     resolution_matches mode size = true /\
     scr_requests scr' = scr_requests scr ++ [i]) /\
  (forall rate, SetDisplayMode d (mkDisplayMode (resolution mode) rate) = (r, d')).
Proof.
  intros Hset. destruct d as [scr | app]; cbn [SetDisplayMode] in *.
  - destruct (LinuxDisplay_SetDisplayMode scr mode) as [r0 scr'] eqn:Hl.
    injection Hset as <- <-. unfold LinuxDisplay_SetDisplayMode in Hl.
    split; [| split].
    + intros Hno.
      rewrite SetDisplayMode_loop_no_match in Hl by (intros size Hs; eapply Hno; eauto).
      injection Hl as <- <-. split; reflexivity.
    + intros Hch.
      destruct (SetDisplayMode_loop_request _ _ _ _ _ _ Hl)
        as [[-> ->] | (k & size & Hk & Hs & Hreq)].
      * destruct Hch as [Hch | Hch]; [discriminate | contradiction].
      * exists scr, scr', k, size. repeat split; assumption.
    + intros rate. unfold LinuxDisplay_SetDisplayMode.
      assert (Hsame : forall i sizes,
                 SetDisplayMode_loop scr (mkDisplayMode (resolution mode) rate) i sizes
                 = SetDisplayMode_loop scr mode i sizes).
      { intros i sizes. revert i.
        induction sizes as [| size rest IH]; intros i; cbn [SetDisplayMode_loop];
          [reflexivity |].
        unfold resolution_matches. cbn [resolution]. rewrite !IH. reflexivity. }
      rewrite Hsame, Hl. reflexivity.
  - cbn in Hset. injection Hset as <- <-.
    split; [| split].
    + intros _. split; reflexivity.
    + intros [Hch | Hch]; [discriminate | contradiction].
    + intros rate. reflexivity.
Qed.

Lemma SetDisplayMode_resolution_only_witness :
  let d := LinuxDisplay (mkXScreen [(mkXRRScreenSize 800 600, [60]);
                                    (mkXRRScreenSize 1024 768, [60])] 0 true 0 []) in
  let mode := mkDisplayMode (mkExtent2D 1280 720) 60 in
  ((forall scr size, d = LinuxDisplay scr -> size ∈ XRRSizes scr ->
                     resolution_matches mode size = false) ->
   false = false /\ d = d) /\
  (false = true \/ d <> d ->
   exists scr scr' i size,
     d = LinuxDisplay scr /\ d = LinuxDisplay scr' /\
     XRRSizes scr !! i = Some size /\
     resolution_matches mode size = true /\
     scr_requests scr' = scr_requests scr ++ [i]) /\
  (forall rate, SetDisplayMode d (mkDisplayMode (resolution mode) rate) = (false, d)).
Proof.
  cbv zeta.
  apply (SetDisplayMode_resolution_only
           (LinuxDisplay (mkXScreen [(mkXRRScreenSize 800 600, [60]);
                                     (mkXRRScreenSize 1024 768, [60])] 0 true 0 []))
           _ (mkDisplayMode (mkExtent2D 1280 720) 60) false).
  vm_compute. reflexivity.
Defined.

Lemma SetDisplayMode_loop_first_match (scr : XScreen) (mode : DisplayMode)
    (i k : nat) (sizes : list XRRScreenSize) (size : XRRScreenSize) :
  scr_info scr = true ->
  sizes !! k = Some size ->
  resolution_matches mode size = true ->
  (forall j other, (j < k)%nat -> sizes !! j = Some other ->
                   resolution_matches mode other = false) ->
  SetDisplayMode_loop scr mode i sizes =
  (negb (scr_set_status scr =? 0), snd (XRRSetScreenConfig scr (i + k))).
Proof.
  intros Hinfo. revert i k.
  induction sizes as [| first rest IH]; intros i k Hk Hm Hbefore; [discriminate Hk |].
  cbn [SetDisplayMode_loop]. destruct k as [| k].
  - injection Hk as ->. rewrite Hm, Hinfo, Nat.add_0_r. reflexivity.
  - rewrite (Hbefore 0%nat first) by (lia || reflexivity).
    rewrite (IH (S i) k Hk Hm).
    + do 3 f_equal. lia.
    + intros j other Hj Hother. apply (Hbefore (S j) other); [lia | exact Hother].
Qed.

(** X26.  On a Linux display whose screen configuration can be read,
    [SetDisplayMode] with a resolution that the screen lists sends one
    set-configuration request, for the first listed size with that
    resolution, and returns true exactly when the server's status is not 0
    ([RRSetConfigSuccess] is 0); so after a request that the server carried
    out, with the screen now at that size, the result is false.  When the
    screen configuration cannot be read, nothing is sent and the result is
    false. *)
Theorem SetDisplayMode_first_match (scr : XScreen) (mode : DisplayMode)
    (k : nat) (size : XRRScreenSize) :
  XRRSizes scr !! k = Some size ->
  resolution_matches mode size = true ->
  (forall j other, (j < k)%nat -> XRRSizes scr !! j = Some other ->
                   resolution_matches mode other = false) ->
  SetDisplayMode (LinuxDisplay scr) mode =
  if scr_info scr then
    (negb (scr_set_status scr =? RRSetConfigSuccess),
     LinuxDisplay
       (mkXScreen (scr_sizes scr)
          (if scr_set_status scr =? RRSetConfigSuccess then k else scr_current_size scr)
          (scr_info scr) (scr_set_status scr) (scr_requests scr ++ [k])))
  else (false, LinuxDisplay scr).
Proof.
  intros Hk Hm Hbefore. cbn [SetDisplayMode]. unfold LinuxDisplay_SetDisplayMode.
  destruct (scr_info scr) eqn:Hinfo.
  - rewrite (SetDisplayMode_loop_first_match scr mode 0 k _ size Hinfo Hk Hm Hbefore).
    cbn. rewrite Hinfo. reflexivity.
  - assert (Hno : forall i sizes, SetDisplayMode_loop scr mode i sizes = (false, scr)).
    { intros i sizes. revert i.
      induction sizes as [| first rest IH]; intros i; cbn [SetDisplayMode_loop];
        [reflexivity |].
      rewrite Hinfo, IH. destruct (resolution_matches mode first); reflexivity. }
    rewrite Hno. reflexivity.
Qed.

Lemma SetDisplayMode_first_match_witness :
  let sizes := [(mkXRRScreenSize 800 600, [60]); (mkXRRScreenSize 1024 768, [60; 75]);
                (mkXRRScreenSize 1024 768, [85])] in
  SetDisplayMode (LinuxDisplay (mkXScreen sizes 0 true 0 []))
                 (mkDisplayMode (mkExtent2D 1024 768) 60)
  = (false, LinuxDisplay (mkXScreen sizes 1 true 0 [1%nat])).
Proof.
  cbv zeta.
  apply (SetDisplayMode_first_match
           (mkXScreen [(mkXRRScreenSize 800 600, [60]); (mkXRRScreenSize 1024 768, [60; 75]);
                       (mkXRRScreenSize 1024 768, [85])] 0 true 0 [])
           (mkDisplayMode (mkExtent2D 1024 768) 60) 1 (mkXRRScreenSize 1024 768)).
  - reflexivity.
  - reflexivity.
  - intros [| j] other Hj Hother; [| lia].
    injection Hother as <-. reflexivity.
Defined.

End DisplaysFacts.

Module SamplesFacts.
Import Samples.

Lemma SelectConfig_loop_spec (display_ : EGLDisplay) (pf : GLPixelFormat) (n : nat) :
  match SelectConfig_loop display_ pf n with
  | (true, s) =>
    1 <= s <= Z.of_nat n /\
    eglChooseConfig display_ pf s = true /\
    forall t, s < t <= Z.of_nat n -> eglChooseConfig display_ pf t = false
  | (false, s) =>
    s = 0 /\
    forall t, 1 <= t <= Z.of_nat n -> eglChooseConfig display_ pf t = false
  end.
Proof.
  induction n as [| n IH].
  - cbn. split; [reflexivity | intros t Ht; lia].
  - cbn [SelectConfig_loop].
    destruct (eglChooseConfig display_ pf (Z.of_nat (S n))) eqn:Hc.
    + split; [lia |]. split; [exact Hc | intros t Ht; lia].
    + destruct (SelectConfig_loop display_ pf n) as [[|] s].
      * destruct IH as (Hs & Hacc & Hrej).
        split; [lia |]. split; [exact Hacc |].
        intros t Ht. destruct (Z.eq_dec t (Z.of_nat (S n))) as [-> | Hne];
          [exact Hc | apply Hrej; lia].
      * destruct IH as (Hs & Hrej). split; [exact Hs |].
        intros t Ht. destruct (Z.eq_dec t (Z.of_nat (S n))) as [-> | Hne];
          [exact Hc | apply Hrej; lia].
Qed.

(** X22.  The sample count that [SelectConfig] settles on is stable and
    monotone: requesting the count that was granted grants it again, and a
    larger request (depth and stencil sizes being the same) succeeds too,
    with at least as many samples. *)
Theorem SelectConfig_stable_monotone (display_ : EGLDisplay) (pf : GLPixelFormat)
    (samples_ : Z) :
  SelectConfig display_ pf = (true, samples_) ->
  forall pf', depthBits pf' = depthBits pf -> stencilBits pf' = stencilBits pf ->
  (samples pf' = samples_ -> SelectConfig display_ pf' = (true, samples_)) /\
  (samples pf <= samples pf' ->
   exists more, SelectConfig display_ pf' = (true, more) /\ samples_ <= more).
Proof.
  intros Hsel pf' Hd Hs.
  assert (Hsame : forall t, eglChooseConfig display_ pf' t = eglChooseConfig display_ pf t)
    by (intros t; unfold eglChooseConfig; rewrite Hd, Hs; reflexivity).
  pose proof (SelectConfig_loop_spec display_ pf (Z.to_nat (Z.max 1 (samples pf)))) as H1.
  pose proof (SelectConfig_loop_spec display_ pf' (Z.to_nat (Z.max 1 (samples pf')))) as H2.
  unfold SelectConfig in *. rewrite Hsel in H1.
  rewrite Z2Nat.id in H1, H2 by lia.
  destruct H1 as (Hr1 & Hok1 & Hrej1).
  destruct (SelectConfig_loop display_ pf' (Z.to_nat (Z.max 1 (samples pf')))) as [[|] s2].
  - destruct H2 as (Hr2 & Hok2 & Hrej2). rewrite Hsame in Hok2. split.
    + intros Heq. f_equal.
      destruct (Z.lt_trichotomy s2 samples_) as [Hlt | [-> | Hgt]]; [| reflexivity | lia].
      specialize (Hrej2 samples_ ltac:(lia)). rewrite Hsame in Hrej2. congruence.
    + intros Hle. exists s2. split; [reflexivity |].
      destruct (Z.le_gt_cases samples_ s2) as [| Hgt]; [assumption |].
      specialize (Hrej2 samples_ ltac:(lia)). rewrite Hsame in Hrej2. congruence.
  - destruct H2 as (_ & Hrej2). split.
    + intros Heq. specialize (Hrej2 samples_ ltac:(lia)).
      rewrite Hsame in Hrej2. congruence.
    + intros Hle. specialize (Hrej2 samples_ ltac:(lia)).
      rewrite Hsame in Hrej2. congruence.
Qed.

Lemma SelectConfig_stable_monotone_witness :
  (SelectConfig egl_1_2_4_8 (mkGLPixelFormat 32 24 8 4) = (true, 4)) /\
  (exists more, SelectConfig egl_1_2_4_8 (mkGLPixelFormat 32 24 8 16) = (true, more) /\
                4 <= more).
Proof.
  split.
  - apply (SelectConfig_stable_monotone egl_1_2_4_8 (mkGLPixelFormat 32 24 8 6) 4 eq_refl
             (mkGLPixelFormat 32 24 8 4) eq_refl eq_refl).
    reflexivity.
  - apply (SelectConfig_stable_monotone egl_1_2_4_8 (mkGLPixelFormat 32 24 8 6) 4 eq_refl
             (mkGLPixelFormat 32 24 8 16) eq_refl eq_refl).
    cbn. lia.
Defined.

End SamplesFacts.

Module AndroidGLFacts.
Import Samples AndroidGL.

Example GLES_version_320 :
  GetGLESVersionNo 3 2 = 320 /\ GetGLESMajorVersion 320 = 3 /\ GetGLESMinorVersion 320 = 2.
Proof. repeat split. Qed.

Lemma to_int_small (v : Z) : - 2 ^ 31 <= v < 2 ^ 31 -> to_int v = v.
Proof.
  intros Hv. unfold to_int. cbv zeta.
  destruct (Z.ltb_spec (v mod 2 ^ 32) (2 ^ 31)); Z.div_mod_to_equations; lia.
Qed.

(** X20.  For a major version from 0 up to [2^24] and a minor version from
    0 to 9, the version number splits back into the two
    ([GetGLESMajorVersion] and [GetGLESMinorVersion] undo
    [GetGLESVersionNo]), and it is a supported one exactly for 3.2, 3.1, 3.0
    and 2.0. *)
Theorem GLES_version_numbers (major minor : Z) :
  0 <= major < 2 ^ 24 -> 0 <= minor <= 9 ->
  GetGLESMajorVersion (GetGLESVersionNo major minor) = major /\
  GetGLESMinorVersion (GetGLESVersionNo major minor) = minor /\
  (IsSupportedGLESVersion (GetGLESVersionNo major minor) = true <->
   In (major, minor) GLES_versions).
Proof.
  intros HM Hm. unfold GetGLESMajorVersion, GetGLESMinorVersion, GetGLESVersionNo.
  rewrite to_int_small by lia.
  rewrite !Z.quot_div_nonneg by lia.
  assert (H100 : (major * 100 + minor * 10) / 100 = major)
    by (symmetry; apply (Z.div_unique _ 100 major (minor * 10)); lia).
  assert (H10 : (major * 100 + minor * 10) / 10 = major * 10 + minor)
    by (symmetry; apply (Z.div_unique _ 10 (major * 10 + minor) 0); lia).
  rewrite H100, H10.
  rewrite Z.rem_mod_nonneg by lia.
  assert (Hrem : (major * 10 + minor) mod 10 = minor)
    by (symmetry; apply (Z.mod_unique _ 10 major minor); lia).
  split; [reflexivity |]. split; [exact Hrem |].
  unfold IsSupportedGLESVersion, GLES_versions. cbn [In].
  rewrite !orb_true_iff, !Z.eqb_eq. split.
  - intros [[[H | H] | H] | H];
      [left | right; left | right; right; left | right; right; right; left];
      f_equal; lia.
  - intros [H | [H | [H | [H | []]]]]; injection H as <- <-; lia.
Qed.

Lemma GLES_version_numbers_witness :
  GetGLESMajorVersion (GetGLESVersionNo 3 1) = 3 /\
  GetGLESMinorVersion (GetGLESVersionNo 3 1) = 1 /\
  (IsSupportedGLESVersion (GetGLESVersionNo 3 1) = true <-> In (3, 1) GLES_versions).
Proof. apply (GLES_version_numbers 3 1); lia. Defined.

Example GLES_version_2_10_passes :
  IsSupportedGLESVersion (GetGLESVersionNo 2 10) = true.
Proof. reflexivity. Qed.

Lemma CreateContext_loop_versions (k : nat) (create : Z -> Z -> bool) (start : Z * Z) :
  In start GLES_versions ->
  CreateContext_loop (4 + k) create (fst start) (snd start)
  = Some (first_created create (versions_from start GLES_versions)).
Proof.
  unfold GLES_versions, first_created. cbn [In].
  intros [<- | [<- | [<- | [<- | []]]]]; cbv;
    repeat match goal with
           | |- context [create ?a ?b] => destruct (create a b)
           end; reflexivity.
Qed.

Lemma CreateContext_loop_ends (k : nat) (create : Z -> Z -> bool) (major minor : Z) :
  CreateContext_loop (4 + k) create major minor <> None.
Proof.
  change (4 + k)%nat with (S (S (S (S k)))). cbn [CreateContext_loop].
  repeat match goal with
         | |- context [if create ?a ?b then _ else _] => destruct (create a b)
         | |- context [if ?a =? ?b then _ else _] => destruct (Z.eqb_spec a b)
         | |- context [if (0 <? ?a) && (?a <=? 2) then _ else _] =>
           destruct (Z.ltb_spec 0 a), (Z.leb_spec a 2); cbn [andb]
         end;
    try discriminate; exfalso; lia.
Qed.

(** X21.  [CreateContext] makes at most four attempts to create a context,
    whatever version it starts from.  When EGL initializes and a
    configuration is found, and the requested version is 3.2, 3.1, 3.0 or 2.0
    (or 0.0, which stands for 3.0), the context has the newest version, from
    the requested one down through 3.2, 3.1, 3.0, 2.0, for which
    [eglCreateContext] hands out a context, and [CreateContext] traps when
    there is none.  A requested version other than 0.0 whose version number
    is not a supported one traps without an attempt. *)
Theorem CreateContext_version (k : nat) (egl : EGL) (pixelFormat : GLPixelFormat)
    (profile : RendererConfigurationOpenGL) (samples_ : Z) :
  egl_initialize egl = true ->
  SelectConfig (egl_configs egl) pixelFormat = (true, samples_) ->
  CreateContext (4 + k) egl pixelFormat profile <> None /\
  (In (start_version profile) GLES_versions ->
     CreateContext (4 + k) egl pixelFormat profile =
     Some match first_created (egl_create_context egl)
                  (versions_from (start_version profile) GLES_versions) with
          | Some version => Ok (samples_, version)
          | None => Trap
          end) /\
  (start_version profile = (majorVersion profile, minorVersion profile) ->
   IsSupportedGLESVersion
     (GetGLESVersionNo (majorVersion profile) (minorVersion profile)) = false ->
   forall fuel, CreateContext fuel egl pixelFormat profile = Some Trap).
Proof.
  intros Hinit Hcfg. unfold CreateContext, start_version. rewrite Hinit, Hcfg. cbn [negb].
  split; [| split].
  - destruct (negb ((majorVersion profile =? 0) && (minorVersion profile =? 0)));
      [destruct (negb (IsSupportedGLESVersion _)); [discriminate |] |];
      match goal with
      | |- context [CreateContext_loop _ ?c ?a ?b] =>
        pose proof (CreateContext_loop_ends k c a b) as Hends;
          destruct (CreateContext_loop (4 + k) c a b) as [[v |] |]
      end; congruence.
  - intros Hin.
    destruct ((majorVersion profile =? 0) && (minorVersion profile =? 0)) eqn:Hz; cbn [negb].
    + rewrite (CreateContext_loop_versions k _ (3, 0)) by exact Hin.
      destruct (first_created _ _); reflexivity.
    + assert (Hsup : IsSupportedGLESVersion
                       (GetGLESVersionNo (majorVersion profile) (minorVersion profile)) = true).
      { unfold GLES_versions in Hin. cbn [In] in Hin.
        destruct Hin as [H | [H | [H | [H | []]]]]; injection H as <- <-; reflexivity. }
      rewrite Hsup. cbn [negb].
      rewrite (CreateContext_loop_versions k _ (majorVersion profile, minorVersion profile))
        by exact Hin.
      destruct (first_created _ _); reflexivity.
  - intros Hstart Hunsup fuel.
    destruct ((majorVersion profile =? 0) && (minorVersion profile =? 0)) eqn:Hz; cbn [negb].
    + apply andb_prop in Hz as [H1%Z.eqb_eq H2%Z.eqb_eq].
      rewrite H1, H2 in Hstart. discriminate Hstart.
    + rewrite Hunsup. reflexivity.
Qed.

Lemma CreateContext_version_witness :
  let egl := mkEGL true (egl_up_to 4) (fun major minor => (major =? 3) && (minor =? 0)) in
  CreateContext (4 + 0) egl (mkGLPixelFormat 32 24 8 8) (mkProfile 3 2)
  = Some (Ok (4, (3, 0))).
Proof.
  cbv zeta.
  refine (proj1 (proj2 (CreateContext_version 0
            (mkEGL true (egl_up_to 4) (fun major minor => (major =? 3) && (minor =? 0)))
            (mkGLPixelFormat 32 24 8 8) (mkProfile 3 2) 4 eq_refl _)) _).
  - vm_compute. reflexivity.
  - cbn. tauto.
Defined.

(** ** The sample count of the context *)

Example scenario_16_of_8 :
  AndroidGLContext_samples 4 (mkEGL true (egl_up_to 8) (fun _ _ => true))
    (mkGLPixelFormat 32 24 8 16) (mkProfile 0 0) = Some (Ok 8).
Proof. vm_compute. reflexivity. Qed.







End AndroidGLFacts.

Module ExamplesFacts.
Import Samples Examples.
Import String.StringSyntax.

Section CommandLine.

Variable atoi : String.string -> Z.
Variable compare : String.string -> nat -> nat -> String.string -> Z.

Lemma clamp_samples_range (value : Z) : 1 <= clamp_samples value <= 16.
Proof.
  unfold clamp_samples, to_uint32.
  rewrite Z.mod_small; lia.
Qed.

Lemma ParseSamples_loop_result (samples : Z) (args : list String.string) :
  (fst (ParseSamples_loop atoi compare samples args) = true ->
   1 <= snd (ParseSamples_loop atoi compare samples args) <= 16) /\
  (fst (ParseSamples_loop atoi compare samples args) = false ->
   snd (ParseSamples_loop atoi compare samples args) = samples).
Proof.
  induction args as [| arg rest IH]; cbn [ParseSamples_loop].
  - cbn. split; [discriminate | reflexivity].
  - destruct (compare arg 0 (String.length msArg) msArg =? 0); [| exact IH].
    destruct (String.length arg <? String.length msArg + 1)%nat; cbn [fst snd].
    + split; [discriminate | reflexivity].
    + split; [intros _; apply clamp_samples_range | discriminate].
Qed.

End CommandLine.

Local Open Scope string_scope.

Example ParseSamples_4 :
  ParseSamples atoi_digits compare_equal 8 ["Example"; "-v0"; "-ms=4"; "-ms=2"] = (true, 4).
Proof. vm_compute. reflexivity. Qed.

Local Close Scope string_scope.

(** X23.  Whatever [atoi] and the command line are: when [ParseSamples]
    returns true the sample count it has written is between 1 and 16, and
    when it returns false the sample count is as it was; so the configured
    sample count, which starts at 8, is between 1 and 16, and the sample
    count of the example is at most 16, at least 1 for OpenGL, and for the
    other renderers at most their limit (and at least 1 when the limit is). *)
Theorem example_samples_range (atoi : String.string -> Z)
    (compare : String.string -> nat -> nat -> String.string -> Z)
    (samples : Z) (argv : list String.string) (id : RendererID) (maxColorBufferSamples : Z) :
  (fst (ParseSamples atoi compare samples argv) = true ->
   1 <= snd (ParseSamples atoi compare samples argv) <= 16) /\
  (fst (ParseSamples atoi compare samples argv) = false ->
   snd (ParseSamples atoi compare samples argv) = samples) /\
  1 <= config_samples atoi compare argv <= 16 /\
  ExampleBase_samples id (config_samples atoi compare argv) maxColorBufferSamples <= 16 /\
  (id = OpenGL \/ 1 <= maxColorBufferSamples ->
   1 <= ExampleBase_samples id (config_samples atoi compare argv) maxColorBufferSamples) /\
  (id = OtherRenderer ->
   ExampleBase_samples id (config_samples atoi compare argv) maxColorBufferSamples
   <= maxColorBufferSamples).
Proof.
  assert (Hcfg : 1 <= config_samples atoi compare argv <= 16).
  { unfold config_samples, ParseSamples.
    destruct (ParseSamples_loop_result atoi compare 8 (tail argv)) as [Ht Hf].
    destruct (fst (ParseSamples_loop atoi compare 8 (tail argv))).
    - apply Ht. reflexivity.
    - rewrite Hf by reflexivity. lia. }
  unfold ParseSamples.
  destruct (ParseSamples_loop_result atoi compare samples (tail argv)) as [Ht Hf].
  repeat split; try (apply Ht; assumption); try (apply Hcfg).
  - exact Hf.
  - destruct id; cbn [ExampleBase_samples]; lia.
  - intros [-> | Hmax]; [cbn [ExampleBase_samples]; lia |].
    destruct id; cbn [ExampleBase_samples]; lia.
  - intros ->. cbn [ExampleBase_samples]. lia.
Qed.

(** X24.  Only the first argument after the program name for which the
    comparison with ["-ms="] gives 0 counts: when it is longer than four
    characters [ParseSamples] returns true with the number after these four
    characters, clamped to 1..16, and when it is not, [ParseSamples] returns
    false and leaves the sample count, whatever arguments follow. *)
Theorem ParseSamples_first_match (atoi : String.string -> Z)
    (compare : String.string -> nat -> nat -> String.string -> Z)
    (samples : Z) (program arg : String.string) (before rest : list String.string) :
  Forall (fun a => compare a 0%nat (String.length msArg) msArg <> 0) before ->
  compare arg 0%nat (String.length msArg) msArg = 0 ->
  ParseSamples atoi compare samples (program :: before ++ arg :: rest) =
  if (String.length arg <=? 4)%nat then (false, samples)
  else (true, Z.max 1 (Z.min (atoi (after_msArg arg)) 16)).
Proof.
  intros Hbefore Harg. unfold ParseSamples. cbn [tail].
  induction Hbefore as [| a before Ha _ IH]; cbn [app ParseSamples_loop].
  - rewrite Harg. cbn [Z.eqb].
    change (String.length msArg + 1)%nat with 5%nat.
    destruct (Nat.ltb_spec (String.length arg) 5), (Nat.leb_spec (String.length arg) 4);
      try lia; [reflexivity |].
    unfold clamp_samples, to_uint32. rewrite Z.mod_small by lia. reflexivity.
  - destruct (Z.eqb_spec (compare a 0%nat (String.length msArg) msArg) 0) as [E | _];
      [contradiction | exact IH].
Qed.

Local Open Scope string_scope.

Lemma ParseSamples_first_match_witness :
  ParseSamples atoi_digits compare_equal 8 ["Example"; "-v0"; "-d"; "-ms=40"; "-ms=2"]
  = (true, 16).
Proof.
  apply (ParseSamples_first_match atoi_digits compare_equal 8
           "Example" "-ms=40" ["-v0"; "-d"] ["-ms=2"]).
  - repeat constructor; vm_compute; discriminate.
  - vm_compute. reflexivity.
Defined.

Local Close Scope string_scope.

(** X25.  The resource index of the texturing example stays an index of the
    four labels: from every [unsigned] value, TAB and Shift+TAB give a value
    from 0 to 3, each undoes the other (modulo 4), and for an index from 0 to
    3 the texture index is 0 or 1 and the sampler index is 0, 1 or 2. *)
Theorem resource_index_cycle (resourceIndex : Z) :
  0 <= resourceIndex < 2 ^ 32 ->
  0 <= next_resource resourceIndex < 4 /\
  0 <= previous_resource resourceIndex < 4 /\
  previous_resource (next_resource resourceIndex) = resourceIndex mod 4 /\
  next_resource (previous_resource resourceIndex) = resourceIndex mod 4 /\
  (resourceIndex < 4 ->
   0 <= colorMap_index resourceIndex < 2 /\ 0 <= sampler_index resourceIndex < 3).
Proof.
  intros Hi. unfold next_resource, previous_resource, colorMap_index, sampler_index, to_uint32.
  change (2 ^ 32) with 4294967296 in *.
  repeat split; try (destruct (Z.eqb_spec resourceIndex 0));
    try (Z.div_mod_to_equations; lia).
Qed.

Lemma resource_index_cycle_witness :
  0 <= next_resource 3 < 4 /\
  0 <= previous_resource 3 < 4 /\
  previous_resource (next_resource 3) = 3 mod 4 /\
  next_resource (previous_resource 3) = 3 mod 4 /\
  (3 < 4 -> 0 <= colorMap_index 3 < 2 /\ 0 <= sampler_index 3 < 3).
Proof. apply (resource_index_cycle 3). lia. Defined.

End ExamplesFacts.
